(** * booksonpaste: the paragraph accumulation of [generate_text]

  A shallow embedding of the accumulation loop of
  [booksonpaste/bop.py] ([generate_text], lines 186-231) and of the
  Python primitives it calls, followed by the properties the
  specification states about it.

  Conventions of the embedding:
  - a Python [str] is a [string]; every character stands for one code
    point (the 8-bit [ascii] type covers U+0000..U+00FF);
  - a Python [int] is a [Z]; [len] yields a [nat] injected into [Z];
  - the pool [paragraphs] is the list built by the fetching loop of
    lines 162-175, and [start_idx] is the number drawn by
    [random.randint(0, len(paragraphs) - 1)];
  - [count_tokens] (tiktoken) is an oracle, a parameter of the model;
  - [while True] is run with fuel: [None] means that the loop has not
    finished within the given number of iterations.

  The second part embeds the functions around the loop: the paragraph
  pool (lines 165-175), [format_number], [parse_size] and the cache of
  downloaded texts ([download_text], [get_random_text] and the
  functions on [CACHE_DIR]). Floating point, the network, the regular
  expressions and the decoding of files are parameters there. *)

From Stdlib Require Import ZArith Ascii Decimal DecimalString DecimalPos DecimalZ.
From stdpp Require Import base decidable numbers list strings gmap.

(** ** Python primitives *)

(** The literal ['\n\n']. *)
Definition NLNL : string := String "010" (String "010" EmptyString).

Module Py.

Inductive exn := ValueError | IndexError.

(** [c.isspace()] for one code point below U+0100: TAB..CR, FS..US,
    SPACE, NEL and NBSP. *)
Definition isspace (c : ascii) : bool :=
  let n := nat_of_ascii c in
  bool_decide (9 ≤ n ≤ 13) || bool_decide (28 ≤ n ≤ 32)
  || bool_decide (n = 133) || bool_decide (n = 160).

(** [s[:stop]]: a negative [stop] counts from the end of [s], and the
    bound is clipped to [0..len(s)]. *)
Definition slice_to (s : string) (stop : Z) : string :=
  let n := Z.of_nat (String.length s) in
  let stop' := if decide (stop < 0)%Z then Z.max (n + stop) 0 else Z.min stop n in
  String.substring 0 (Z.to_nat stop') s.

Definition flush (word : string) : list string :=
  if decide (word = "") then [] else [word].

(** [s.split()]: the maximal runs of non-whitespace characters. *)
Fixpoint split_from (word : string) (s : string) : list string :=
  match s with
  | EmptyString => flush word
  | String c s' =>
      if isspace c then flush word ++ split_from "" s'
      else split_from (word +:+ String c "") s'
  end.

Definition split (s : string) : list string := split_from "" s.

(** [sep.join(l)]. *)
Definition join (sep : string) (l : list string) : string := String.concat sep l.

End Py.

(** ** The loop of [generate_text] *)

(** The local variables the loop updates. *)
Record locals := Locals {
  result : list string;
  current_size : Z;
  current_idx : nat
}.

(** The two [break] statements: line 217 (the candidate paragraph would
  exceed the target) and line 229 (wrapped around to the start). *)
Inductive exit := Overflow | Wrapped.

(** One iteration of the loop body. *)
Inductive flow :=
  | Continue (st : locals)
  | Break (why : exit) (st : locals)
  | Raise (e : Py.exn).

(** How the loop ends. *)
Inductive finished :=
  | Broke (why : exit) (st : locals)
  | Raised (e : Py.exn).

Section generate_text.

Variable count_tokens : string → nat.
Variable paragraphs : list string.
Variable start_idx : nat.
Variable target_size : Z.
Variable mode : string.

(** Lines 194-197. *)
Definition next_size (paragraph : string) : Z :=
  if decide (mode = "tokens") then Z.of_nat (count_tokens paragraph)
  else Z.of_nat (String.length (paragraph +:+ NLNL)).

(** Lines 205-212: the [for word in words] loop with its [break]. *)
Fixpoint take_words (words partial : list string) (partial_size : Z) : list string :=
  match words with
  | [] => partial
  | word :: words' =>
      let word_size := Z.of_nat (count_tokens (word +:+ " ")) in
      if decide (partial_size + word_size > target_size)%Z then partial
      else take_words words' (partial ++ [word]) (partial_size + word_size)
  end.

(** Lines 203-216: what is appended to the empty [result] when the
    first paragraph is too big. *)
Definition portion (paragraph : string) : list string :=
  if decide (mode = "tokens") then
    let partial := take_words (Py.split paragraph) [] 0 in
    match partial with
    | [] => []
    | _ => [Py.join " " partial +:+ NLNL]
    end
  else [Py.slice_to paragraph (target_size - 2) +:+ NLNL].

(** Lines 192-229. *)
Definition loop_body (st : locals) : flow :=
  match paragraphs !! current_idx st with
  | None => Raise Py.IndexError
  | Some paragraph =>
      if decide (current_size st + next_size paragraph > target_size)%Z then
        match result st with
        | [] => Break Overflow
                  (Locals (portion paragraph) (current_size st) (current_idx st))
        | _ => Break Overflow st
        end
      else
        let st' :=
          Locals (result st ++ [paragraph +:+ NLNL])
                 (current_size st + next_size paragraph)
                 ((current_idx st + 1) `mod` length paragraphs) in
        if decide (current_idx st' = start_idx) then Break Wrapped st'
        else Continue st'
  end.

(** Line 191: [while True]. *)
Fixpoint while_true (fuel : nat) (st : locals) : option finished :=
  match fuel with
  | 0 => None
  | S fuel' =>
      match loop_body st with
      | Continue st' => while_true fuel' st'
      | Break why st' => Some (Broke why st')
      | Raise e => Some (Raised e)
      end
  end.

(** Lines 186-188. *)
Definition initial : locals := Locals [] 0 start_idx.

(** Lines 182-231 for a given number of loop iterations.
    [random.randint(0, -1)] raises [ValueError] on an empty pool. *)
Definition generate_text_fuel (fuel : nat) : option (Py.exn + string) :=
  match paragraphs with
  | [] => Some (inl Py.ValueError)
  | _ =>
      match while_true fuel initial with
      | None => None
      | Some (Raised e) => Some (inl e)
      | Some (Broke _ st) => Some (inr (Py.join "" (result st)))
      end
  end.

(** One iteration per pool entry is always enough
    (see [generate_text_fuel_enough]). *)
Definition generate_text : option (Py.exn + string) :=
  generate_text_fuel (length paragraphs).

(** ** Notions used to state the properties *)

(** What the loop appends for a run of whole paragraphs (line 219). *)
Definition appended (ps : list string) : list string :=
  (λ paragraph, paragraph +:+ NLNL) <$> ps.

(** The sum of [next_size] over a run of paragraphs. *)
Definition total_size (ps : list string) : Z :=
  foldr (λ paragraph acc, next_size paragraph + acc)%Z 0%Z ps.

(** The number of iterations of a run that appends [m] paragraphs. *)
Definition iterations (why : exit) (m : nat) : nat :=
  match why with Overflow => S m | Wrapped => m end.

(** The size of a string in the unit of [mode]. *)
Definition measured_size (s : string) : Z :=
  if decide (mode = "tokens") then Z.of_nat (count_tokens s)
  else Z.of_nat (String.length s).

(** The splitter in the words of the specification, in characters: the
    first [remainingBudget - 2] characters, none when that is negative,
    then the separator. *)
Definition spec_split_chars (paragraph : string) (remainingBudget : Z) : string :=
  String.substring 0 (Z.to_nat (remainingBudget - 2)) paragraph +:+ NLNL.

(** The splitter in the words of the specification, in tokens: words
    are accepted in order while the running sum of
    [tokenCount(word + " ")] stays at most [remainingBudget]. *)
Fixpoint spec_accept (words : list string) (running : Z) (remainingBudget : Z)
  : list string :=
  match words with
  | [] => []
  | word :: words' =>
      let running' := (running + Z.of_nat (count_tokens (word +:+ " ")))%Z in
      if decide (running' ≤ remainingBudget)%Z
      then word :: spec_accept words' running' remainingBudget
      else []
  end.

Definition spec_split_tokens (paragraph : string) (remainingBudget : Z) : string :=
  match spec_accept (Py.split paragraph) 0 remainingBudget with
  | [] => ""
  | accepted => Py.join " " accepted +:+ NLNL
  end.

(** The text the partial branch of lines 202-216 contributes for the
    first paragraph: empty when nothing is appended. *)
Definition fragment (paragraph : string) : string :=
  Py.join "" (portion paragraph).

(** The pool indices of the first [m] candidates of the walk. *)
Definition cursor_path (m : nat) : list nat :=
  (λ i, (start_idx + i) `mod` length paragraphs) <$> seq 0 m.

(** The cost of a list of words, each measured with one space after it. *)
Definition words_size (words : list string) : Z :=
  foldr (λ word acc, Z.of_nat (count_tokens (word +:+ " ")) + acc)%Z 0%Z words.

End generate_text.

(** A stand-in for the tokenizer in closed examples: one token per
  character. *)
Definition char_tokens (s : string) : nat := String.length s.

(** A paragraph of [n] copies of one character. *)
Definition filler (c : ascii) (n : nat) : string :=
  String.string_of_list_ascii (replicate n c).

(** * The rest of [bop.py]

  The definitions below embed the functions around the accumulation
  loop: the paragraph pool of lines 165 and 174, [format_number],
  [parse_size] and the cache of downloaded texts. *)

(** ** More Python string primitives *)

Module PyStr.

(** [c.lower()] for one code point below U+0100: A..Z and the capital
    letters U+00C0..U+00DE, without the sign U+00D7. *)
Definition lower_char (c : ascii) : ascii :=
  let n := nat_of_ascii c in
  if bool_decide (65 ≤ n ≤ 90)
     || bool_decide (192 ≤ n ≤ 222) && negb (bool_decide (n = 215))
  then ascii_of_nat (n + 32) else c.

(** [s.lower()]. *)
Fixpoint lower (s : string) : string :=
  match s with
  | EmptyString => EmptyString
  | String c s' => String (lower_char c) (lower s')
  end.

(** [s.endswith(suffix)]: [suffix] is [s] or the end of its tail. *)
Fixpoint endswith (s suffix : string) : bool :=
  bool_decide (s = suffix)
  || match s with
     | EmptyString => false
     | String _ s' => endswith s' suffix
     end.

(** [s.rstrip(...)], for the characters that satisfy [strips]. *)
Fixpoint rstrip_if (strips : ascii → bool) (s : string) : string :=
  match s with
  | EmptyString => EmptyString
  | String c s' =>
      match rstrip_if strips s' with
      | EmptyString => if strips c then EmptyString else String c EmptyString
      | kept => String c kept
      end
  end.

(** [s.lstrip(...)], for the characters that satisfy [strips]. *)
Fixpoint lstrip_if (strips : ascii → bool) (s : string) : string :=
  match s with
  | EmptyString => EmptyString
  | String c s' => if strips c then lstrip_if strips s' else s
  end.

(** [s.rstrip(chars)] for a single character. *)
Definition rstrip_char (c : ascii) (s : string) : string :=
  rstrip_if (λ a, bool_decide (a = c)) s.

(** [s.strip()]. *)
Definition strip (s : string) : string :=
  lstrip_if Py.isspace (rstrip_if Py.isspace s).

(** [s.split('\n\n')]: the pieces between the occurrences of the
    separator, found from left to right; never an empty list. *)
Fixpoint split_nlnl (s : string) : list string :=
  match s with
  | EmptyString => [EmptyString]
  | String c s' =>
      match s' with
      | String c' s'' =>
          if bool_decide (c = "010"%char) && bool_decide (c' = "010"%char)
          then EmptyString :: split_nlnl s''
          else match split_nlnl s' with
               | piece :: pieces => String c piece :: pieces
               | [] => [String c EmptyString]
               end
      | EmptyString => [String c EmptyString]
      end
  end.

End PyStr.

(** ** The paragraph pool (lines 165 and 174) *)

(** [[p.strip() for p in source_text.split('\n\n') if p.strip()]]. *)
Definition paragraphs_of (source_text : string) : list string :=
  omap (λ p, let p' := PyStr.strip p in if decide (p' = "") then None else Some p')
       (PyStr.split_nlnl source_text).

(** The first and the last character of a string. *)
Definition first_char (s : string) : option ascii :=
  match s with
  | EmptyString => None
  | String c _ => Some c
  end.

Fixpoint last_char (s : string) : option ascii :=
  match s with
  | EmptyString => None
  | String c EmptyString => Some c
  | String _ s' => last_char s'
  end.

(** A string that is not empty and neither starts nor ends with
    whitespace. *)
Definition is_trimmed (s : string) : bool :=
  match first_char s, last_char s with
  | Some a, Some b => negb (Py.isspace a) && negb (Py.isspace b)
  | _, _ => false
  end.

(** Two line feeds in a row occur in the string. *)
Fixpoint has_nlnl (s : string) : bool :=
  match s with
  | String c (String c' _ as s') =>
      bool_decide (c = "010"%char) && bool_decide (c' = "010"%char) || has_nlnl s'
  | _ => false
  end.

(** Every character of the string is whitespace. *)
Fixpoint all_space (s : string) : bool :=
  match s with
  | EmptyString => true
  | String c s' => Py.isspace c && all_space s'
  end.

(** The pool after lines 162-175, when the calls of [get_random_text]
    returned [source_texts], in this order: the paragraphs of the first
    text, extended by those of every additional one. *)
Definition pool_of (source_texts : list string) : list string :=
  source_texts ≫= paragraphs_of.

(** ** [format_number] (lines 142-144) *)

(** The [,] option of the format specification: a comma before every
    group of three digits, counted from the right. *)
Fixpoint commas (digits : string) : string :=
  match digits with
  | EmptyString => EmptyString
  | String c digits' =>
      String c
        (if bool_decide (digits' ≠ EmptyString)
            && bool_decide (String.length digits' `mod` 3 = 0)
         then String "," (commas digits')
         else commas digits')
  end.

(** [f"{n:,}"]. *)
Definition format_number (n : Z) : string :=
  match Z.to_int n with
  | Decimal.Pos d => commas (NilZero.string_of_uint d)
  | Decimal.Neg d => String "-" (commas (NilZero.string_of_uint d))
  end.

(** Reading a formatted number back: the commas are dropped and the
    rest is read as a decimal integer. *)
Fixpoint drop_commas (s : string) : string :=
  match s with
  | EmptyString => EmptyString
  | String c s' => if bool_decide (c = ","%char) then drop_commas s'
                   else String c (drop_commas s')
  end.

Definition read_number (s : string) : option Z :=
  Z.of_int <$> NilZero.int_of_string (drop_commas s).

(** ** [parse_size] (lines 62-77) *)

(** What [int(float(size_str) * multiplier)] does: it yields an integer,
    or raises [ValueError] (no number, or not a number), or raises
    [OverflowError] (an infinity). *)
Inductive conversion :=
  | Converted (n : Z)
  | ConversionValueError
  | ConversionOverflowError.

(** How [parse_size] fails: with its own [ValueError], whose message
    quotes [size_str] as it is at line 77, or with the [OverflowError]
    that the [except ValueError] clause lets through. *)
Inductive size_error :=
  | InvalidSizeFormat (size_str : string)
  | SizeOverflowError.

Section parse_size.

(** Floating point is not modelled: the conversion of line 75 is a
    parameter. *)
Variable int_of_float_times : string → Z → conversion.

(** Lines 64-72: the multiplier and what is left of [size_str]. *)
Definition size_suffix (size_str : string) : Z * string :=
  let size_str := PyStr.lower size_str in
  if PyStr.endswith size_str "mm" || PyStr.endswith size_str "m" then
    (1000000%Z, PyStr.rstrip_char "m" size_str)
  else if PyStr.endswith size_str "k" then
    (1000%Z, PyStr.rstrip_char "k" size_str)
  else (1%Z, size_str).

Definition parse_size (size_str : string) : size_error + Z :=
  let '(multiplier, size_str) := size_suffix size_str in
  match int_of_float_times size_str multiplier with
  | Converted n => inr n
  | ConversionValueError => inl (InvalidSizeFormat size_str)
  | ConversionOverflowError => inl SizeOverflowError
  end.

End parse_size.

(** ** The cache of downloaded texts (lines 14-125) *)

(** Lines 18-60. *)
Definition GUTENBERG_TEXTS : list (string * string) := [
  ("https://www.gutenberg.org/cache/epub/1342/pg1342.txt", "pride_prejudice");
  ("https://www.gutenberg.org/cache/epub/161/pg161.txt", "sense_sensibility");
  ("https://www.gutenberg.org/cache/epub/768/pg768.txt", "wuthering_heights");
  ("https://www.gutenberg.org/cache/epub/98/pg98.txt", "tale_two_cities");
  ("https://www.gutenberg.org/cache/epub/145/pg145.txt", "middlemarch");
  ("https://www.gutenberg.org/cache/epub/158/pg158.txt", "emma");
  ("https://www.gutenberg.org/cache/epub/1400/pg1400.txt", "great_expectations");
  ("https://www.gutenberg.org/cache/epub/1952/pg1952.txt", "yellow_wallpaper");
  ("https://www.gutenberg.org/cache/epub/1250/pg1250.txt", "anthem");
  ("https://www.gutenberg.org/cache/epub/76/pg76.txt", "huck_finn");
  ("https://www.gutenberg.org/cache/epub/2701/pg2701.txt", "moby_dick");
  ("https://www.gutenberg.org/cache/epub/64317/pg64317.txt", "age_innocence");
  ("https://www.gutenberg.org/cache/epub/113/pg113.txt", "secret_garden");
  ("https://www.gutenberg.org/cache/epub/84/pg84.txt", "frankenstein");
  ("https://www.gutenberg.org/cache/epub/1661/pg1661.txt", "sherlock");
  ("https://www.gutenberg.org/cache/epub/345/pg345.txt", "dracula");
  ("https://www.gutenberg.org/cache/epub/43/pg43.txt", "jekyll_hyde");
  ("https://www.gutenberg.org/cache/epub/3268/pg3268.txt", "mysteries_udolpho");
  ("https://www.gutenberg.org/cache/epub/35/pg35.txt", "time_machine");
  ("https://www.gutenberg.org/cache/epub/36/pg36.txt", "war_worlds");
  ("https://www.gutenberg.org/cache/epub/209/pg209.txt", "turn_screw");
  ("https://www.gutenberg.org/cache/epub/624/pg624.txt", "looking_backward");
  ("https://www.gutenberg.org/cache/epub/120/pg120.txt", "treasure_island");
  ("https://www.gutenberg.org/cache/epub/1184/pg1184.txt", "count_monte");
  ("https://www.gutenberg.org/cache/epub/1257/pg1257.txt", "three_musketeers");
  ("https://www.gutenberg.org/cache/epub/1259/pg1259.txt", "twenty_years");
  ("https://www.gutenberg.org/cache/epub/45/pg45.txt", "anne_green_gables");
  ("https://www.gutenberg.org/cache/epub/174/pg174.txt", "picture_dorian");
  ("https://www.gutenberg.org/cache/epub/514/pg514.txt", "little_women");
  ("https://www.gutenberg.org/cache/epub/730/pg730.txt", "oliver_twist")
].

(** What the cache functions see and change: [CACHE_DIR] ([None] while
    it does not exist, else its files by name, each with the text that
    was written to it), the URLs passed to [requests.get] (latest
    first) and the lines printed to [sys.stderr] (latest first). *)
Record world := World {
  cache_dir : option (gmap string string);
  requested : list string;
  stderr : list string
}.

(** [CACHE_DIR.glob("*.txt")] matches the names that end in [.txt]. *)
Definition is_txt (name : string) : bool := PyStr.endswith name ".txt".

(** Lines 79-81: [mkdir(parents=True, exist_ok=True)]. *)
Definition ensure_cache_dir (w : world) : world :=
  World (Some (default ∅ (cache_dir w))) (requested w) (stderr w).

(** Lines 83-87. *)
Definition clear_cache (w : world) : world :=
  World (filter (λ entry, ¬ is_txt entry.1) <$> cache_dir w)
        (requested w) (stderr w).

(** Lines 89-94. *)
Definition ensure_clean_cache (print_message : bool) (w : world) : world :=
  let w := ensure_cache_dir (clear_cache w) in
  if print_message
  then World (cache_dir w) (requested w) ("Cache cleared." :: stderr w)
  else w.

(** Lines 116-118. *)
Definition is_cache_empty (w : world) : bool :=
  match cache_dir w with
  | None => true
  | Some files => bool_decide (filter (λ entry, is_txt entry.1) files = ∅)
  end.

Section download.

(** The collaborators of [download_text] are parameters: the text of the
    response to the [n]-th request, for a URL ([None] when
    [requests.get] or [raise_for_status] raises); the two [re.sub] calls
    of lines 108-109; and what [read_text] returns for a file that holds
    what [write_text] was given. *)
Variable response_text : nat → string → option string.
Variable strip_gutenberg : string → string.
Variable read_text : string → string.

(** Lines 96-114. [None] stands for the exception of a failed request. *)
Definition download_text (url filename : string) (w : world) : option string * world :=
  let cache_path := filename +:+ ".txt" in
  match cache_dir w ≫= (.!! cache_path) with
  | Some written => (Some (read_text written), w)
  | None =>
      let n := length (requested w) in
      let w := World (cache_dir w) (url :: requested w) (stderr w) in
      match response_text n url with
      | None => (None, w)
      | Some text =>
          let text := strip_gutenberg text in
          let w := ensure_cache_dir w in
          (Some text,
           World (<[cache_path := text]> <$> cache_dir w) (requested w) (stderr w))
      end
  end.

(** Lines 120-125; [choice] is the pair drawn by [random.choice]. *)
Definition get_random_text (choice : string * string) (w : world)
  : option string * world :=
  let w := if is_cache_empty w then ensure_clean_cache false w else w in
  download_text choice.1 choice.2 w.

(** Every [.txt] file of the cache is a cleaned response for a URL that
    the table pairs with its name. *)
Definition cache_holds_books (w : world) : Prop :=
  ∀ files name written,
    cache_dir w = Some files → files !! name = Some written → is_txt name →
    ∃ url filename n text,
      (url, filename) ∈ GUTENBERG_TEXTS
      ∧ name = filename +:+ ".txt"
      ∧ response_text n url = Some text
      ∧ written = strip_gutenberg text.

End download.

Example split_demo :
  Py.split "  It was  the best of times " = ["It"; "was"; "the"; "best"; "of"; "times"].
Proof. reflexivity. Qed.

Example slice_demo :
  Py.slice_to "hello" 3 = "hel" ∧ Py.slice_to "hello" 9 = "hello"
  ∧ Py.slice_to "hello" (-1) = "hell" ∧ Py.slice_to "hello" (-7) = "".
Proof. repeat split. Qed.

Example generate_demo :
  generate_text char_tokens ["ab"; "cde"; "f"] 1 8 "chars"
  = Some (inr ("cde" +:+ NLNL +:+ "f" +:+ NLNL)).
Proof. reflexivity. Qed.

(** ** Facts about strings *)

Section strings.

Implicit Types s t u : string.

Lemma string_app_cons c s t : String c s +:+ t = String c (s +:+ t).
Proof. reflexivity. Qed.

Lemma string_app_nil_r s : s +:+ "" = s.
Proof. induction s as [|c s IH]; [done|]. by rewrite string_app_cons, IH. Qed.

Lemma string_app_assoc s t u : (s +:+ t) +:+ u = s +:+ (t +:+ u).
Proof. induction s as [|c s IH]; [done|]. by rewrite !string_app_cons, IH. Qed.

Lemma string_length_app s t :
  String.length (s +:+ t) = String.length s + String.length t.
Proof.
  induction s as [|c s IH]; [done|]. rewrite string_app_cons. cbn. by rewrite IH.
Qed.

Lemma substring_0_length n s :
  String.length (String.substring 0 n s) = n `min` String.length s.
Proof.
  revert n. induction s as [|c s IH]; intros [|n]; cbn; try done.
  by rewrite IH.
Qed.

Lemma substring_0_all n s :
  String.length s ≤ n → String.substring 0 n s = s.
Proof.
  revert n. induction s as [|c s IH]; intros [|n] Hn; cbn in *; try done; try lia.
  f_equal. apply IH. lia.
Qed.

Lemma length_NLNL : String.length NLNL = 2.
Proof. done. Qed.

Lemma slice_to_length s stop :
  Z.of_nat (String.length (Py.slice_to s stop))
  = if decide (stop < 0)%Z then Z.max (Z.of_nat (String.length s) + stop) 0
    else Z.min stop (Z.of_nat (String.length s)).
Proof.
  unfold Py.slice_to. rewrite substring_0_length. case_decide; lia.
Qed.

Lemma slice_to_nonneg s stop :
  (0 ≤ stop)%Z → Py.slice_to s stop = String.substring 0 (Z.to_nat stop) s.
Proof.
  intros Hstop. unfold Py.slice_to. rewrite decide_False by lia.
  destruct (decide (stop ≤ Z.of_nat (String.length s))%Z) as [Hle|Hgt].
  - by rewrite Z.min_l.
  - rewrite Z.min_r, Nat2Z.id by lia.
    rewrite !substring_0_all; [done|lia..].
Qed.

Lemma join_empty_cons s (l : list string) : Py.join "" (s :: l) = s +:+ Py.join "" l.
Proof. destruct l; cbn; [by rewrite string_app_nil_r|done]. Qed.

Lemma join_empty_app (l k : list string) :
  Py.join "" (l ++ k) = Py.join "" l +:+ Py.join "" k.
Proof.
  induction l as [|s l IH]; [done|].
  rewrite <-app_comm_cons, !join_empty_cons, IH. by rewrite string_app_assoc.
Qed.

Lemma join_empty_singleton s : Py.join "" [s] = s.
Proof. done. Qed.

End strings.

(** ** The cursor of the cyclic walk *)

Section cursor.

Context {A : Type} (l : list A) (start j : nat).
Hypothesis start_lt : start < length l.
Hypothesis j_lt : j < length l.

Lemma cursor_lookup : l !! ((start + j) `mod` length l) = rotate start l !! j.
Proof.
  rewrite lookup_rotate_r by done. unfold rotate_nat_add.
  by rewrite <-Nat2Z.inj_add, <-Nat2Z.inj_mod, Nat2Z.id.
Qed.

Lemma cursor_advance :
  ((start + j) `mod` length l + 1) `mod` length l = (start + S j) `mod` length l.
Proof.
  rewrite Nat.Div0.add_mod_idemp_l. f_equal. lia.
Qed.

Lemma cursor_wraps : (start + S j) `mod` length l = start ↔ S j = length l.
Proof.
  split.
  - intros Hmod. destruct (decide (start + S j < length l)) as [Hlt|Hge].
    + rewrite Nat.mod_small in Hmod by done. lia.
    + assert ((start + S j) `mod` length l = start + S j - length l) as Heq.
      { symmetry. apply (Nat.mod_unique _ _ 1); lia. }
      lia.
  - intros ->. rewrite <-(Nat.mul_1_l (length l)) at 1.
    rewrite Nat.Div0.mod_add. by apply Nat.mod_small.
Qed.

End cursor.

(** ** Sizes of runs of paragraphs *)

Section sizes.

Variable count_tokens : string → nat.
Variable mode : string.

Local Abbreviation size_of := (next_size count_tokens mode).
Local Abbreviation sizes := (total_size count_tokens mode).


Lemma total_size_cons p ps : sizes (p :: ps) = (size_of p + sizes ps)%Z.
Proof. reflexivity. Qed.




End sizes.

(** ** The loop, iteration by iteration *)

Section loop.

Variable count_tokens : string → nat.
Variable paragraphs : list string.
Variable start_idx : nat.
Variable target_size : Z.
Variable mode : string.

Hypothesis start_in_range : start_idx < length paragraphs.

Local Abbreviation rot := (rotate start_idx paragraphs).
Local Abbreviation size_of := (next_size count_tokens mode).
Local Abbreviation sizes := (total_size count_tokens mode).
Local Abbreviation body := (loop_body count_tokens paragraphs start_idx target_size mode).
Local Abbreviation run := (while_true count_tokens paragraphs start_idx target_size mode).
Local Abbreviation part := (portion count_tokens target_size mode).

(** The body at the [j]-th candidate of the walk. *)
Lemma loop_body_at j p st :
  rot !! j = Some p →
  current_idx st = (start_idx + j) `mod` length paragraphs →
  body st =
    if decide (current_size st + size_of p > target_size)%Z then
      match result st with
      | [] => Break Overflow (Locals (part p) (current_size st) (current_idx st))
      | _ => Break Overflow st
      end
    else
      let st' := Locals (result st ++ [p +:+ NLNL]) (current_size st + size_of p)
                        ((start_idx + S j) `mod` length paragraphs) in
      if decide (S j = length paragraphs) then Break Wrapped st' else Continue st'.
Proof.
  intros Hp Hidx.
  assert (j < length paragraphs) as Hj.
  { apply lookup_lt_Some in Hp. by rewrite length_rotate in Hp. }
  unfold loop_body. rewrite Hidx, cursor_lookup, Hp by done.
  case_decide; [done|]. cbn. rewrite cursor_advance by done.
  pose proof (cursor_wraps paragraphs start_idx j start_in_range Hj) as Hwrap.
  destruct (decide (S j = length paragraphs)) as [Hlast|Hmore].
  - rewrite decide_True; [done|]. by apply Hwrap.
  - rewrite decide_False; [done|]. by rewrite Hwrap.
Qed.

Local Ltac split_run := refine (conj _ (conj _ (conj _ (conj _ (conj _ _))))).

(** The run from the [j]-th candidate on: it appends the next [m]
    candidates and then leaves the loop, by either [break]. *)
Lemma while_true_from d : ∀ j st,
  length paragraphs - j = d → j < length paragraphs →
  current_idx st = (start_idx + j) `mod` length paragraphs →
  ∃ m why st',
    j + m ≤ length paragraphs
    ∧ (∀ fuel, run fuel st
         = if decide (iterations why m ≤ fuel) then Some (Broke why st') else None)
    ∧ current_size st' = (current_size st + sizes (take m (drop j rot)))%Z
    ∧ current_idx st' = (start_idx + (j + m)) `mod` length paragraphs
    ∧ (1 ≤ m → (current_size st' ≤ target_size)%Z)
    ∧ match why with
      | Wrapped =>
          j + m = length paragraphs ∧ 1 ≤ m
          ∧ result st' = result st ++ appended (take m (drop j rot))
      | Overflow =>
          ∃ p, rot !! (j + m) = Some p
               ∧ (current_size st' + size_of p > target_size)%Z
               ∧ result st' =
                   match result st ++ appended (take m (drop j rot)) with
                   | [] => part p
                   | whole => whole
                   end
      end.
Proof.
  induction d as [|d IH]; intros j st Hd Hj Hidx; [lia|].
  destruct (lookup_lt_is_Some_2 rot j) as [p Hp]; [by rewrite length_rotate|].
  pose proof (loop_body_at j p st Hp Hidx) as Hbody.
  destruct (decide (current_size st + size_of p > target_size)%Z) as [Hover|Hfit].
  - (* the candidate does not fit *)
    exists 0, Overflow.
    exists (match result st with
            | [] => Locals (part p) (current_size st) (current_idx st)
            | _ => st
            end).
    rewrite Nat.add_0_r, take_0. cbn. rewrite app_nil_r.
    split_run; [lia| | | |lia|].
    + intros [|fuel]; cbn; [done|]. rewrite Hbody. by destruct (result st).
    + destruct (result st); cbn; lia.
    + by destruct (result st).
    + exists p. split_and!; [done| |]; destruct (result st) eqn:Hr; cbn; congruence.
  - cbn in Hbody. destruct (decide (S j = length paragraphs)) as [Hlast|Hmore].
    + (* the last candidate of the cycle *)
      assert (take 1 (drop j rot) = [p]) as Htake.
      { rewrite (drop_S _ p) by done. cbn. by rewrite take_0. }
      exists 1, Wrapped. eexists. rewrite Htake. split_run; [lia| | | | |].
      * intros [|fuel]; cbn; [done|]. by rewrite Hbody.
      * cbn. lia.
      * cbn. f_equal. lia.
      * cbn. lia.
      * split_and!; [lia|lia|done].
    + (* the walk goes on with the next candidate *)
      set (st1 := Locals (result st ++ [p +:+ NLNL]) (current_size st + size_of p)
                         ((start_idx + S j) `mod` length paragraphs)) in Hbody.
      destruct (IH (S j) st1)
        as (m & why & st' & Hm & Hrun & Hsize & Hcur & Hle & Hres); [lia|lia|done|].
      cbn in Hsize, Hres.
      assert (take (S m) (drop j rot) = p :: take m (drop (S j) rot)) as Htake.
      { by rewrite (drop_S _ p). }
      exists (S m), why, st'. split_run; [lia| | | | |].
      * intros [|fuel]; cbn.
        { by destruct why. }
        rewrite Hbody, Hrun. destruct why; cbn; repeat case_decide; done || lia.
      * rewrite Htake, Hsize, total_size_cons. lia.
      * rewrite Hcur. f_equal. lia.
      * intros _. destruct (decide (1 ≤ m)) as [?|Hm0]; [by apply Hle|].
        assert (m = 0) as -> by lia. rewrite Hsize, take_0.
        change (sizes []) with 0%Z. lia.
      * rewrite Htake. cbn. rewrite <-(assoc_L (++)) in Hres. cbn in Hres.
        destruct why.
        -- destruct Hres as (q & Hq & Hover & Hres). exists q.
           by rewrite <-Nat.add_succ_comm.
        -- destruct Hres as (? & ? & ->). split_and!; [lia|lia|done].
Qed.

(** The whole run, from [initial]. *)
Lemma while_true_initial :
  ∃ m why st,
    iterations why m ≤ length paragraphs
    ∧ (∀ fuel, run fuel (initial start_idx)
         = if decide (iterations why m ≤ fuel) then Some (Broke why st) else None)
    ∧ current_size st = sizes (take m rot)
    ∧ current_idx st = (start_idx + m) `mod` length paragraphs
    ∧ (1 ≤ m → (current_size st ≤ target_size)%Z)
    ∧ match why with
      | Wrapped => m = length paragraphs ∧ result st = appended rot
      | Overflow =>
          m < length paragraphs
          ∧ ∃ p, rot !! m = Some p
               ∧ (sizes (take m rot) + size_of p > target_size)%Z
               ∧ result st = if decide (m = 0) then part p else appended (take m rot)
      end.
Proof.
  destruct (while_true_from (length paragraphs) 0 (initial start_idx))
    as (m & why & st & Hm & Hrun & Hsize & Hcur & Hle & Hres);
    [lia|lia|by rewrite Nat.add_0_r, Nat.mod_small|].
  rewrite drop_0 in *. cbn in Hsize, Hcur, Hm, Hres.
  rewrite Z.add_0_l in Hsize.
  exists m, why, st. split_run; [|done..|].
  - destruct why; cbn; [|lia].
    destruct Hres as (p & Hp & _). apply lookup_lt_Some in Hp.
    by rewrite length_rotate in Hp.
  - destruct why.
    + destruct Hres as (p & Hp & Hover & Hres).
      assert (m < length paragraphs) as Hlt.
      { apply lookup_lt_Some in Hp. by rewrite length_rotate in Hp. }
      split; [done|]. exists p. rewrite <-Hsize. split_and!; [done..|].
      case_decide as Hm0; [by subst m|].
      destruct (take m rot) as [|q qs] eqn:Htake; [|done].
      apply (f_equal length) in Htake. rewrite length_take, length_rotate in Htake.
      cbn in Htake. lia.
    + destruct Hres as (-> & _ & ->). split; [done|].
      by rewrite firstn_all2 by (by rewrite length_rotate).
Qed.

(** More fuel than one iteration per pool entry changes nothing, and the
    run never raises. *)
Lemma generate_text_fuel_enough fuel :
  length paragraphs ≤ fuel →
  generate_text_fuel count_tokens paragraphs start_idx target_size mode fuel
  = generate_text count_tokens paragraphs start_idx target_size mode.
Proof.
  intros Hfuel. unfold generate_text, generate_text_fuel.
  destruct while_true_initial as (m & why & st & Hiter & Hrun & _).
  rewrite !Hrun, !decide_True by lia. done.
Qed.

End loop.

(** ** The first candidate *)

Section first_candidate.

Variable count_tokens : string → nat.
Variable paragraphs : list string.
Variable start_idx : nat.
Variable target_size : Z.
Variable mode : string.

Local Abbreviation gen := (generate_text count_tokens paragraphs start_idx target_size mode).

(** When the paragraph at [start_idx] is already too big, the loop ends
    in its first iteration with the portion of that paragraph. *)
Lemma first_candidate_too_big p :
  paragraphs !! start_idx = Some p →
  (next_size count_tokens mode p > target_size)%Z →
  gen = Some (inr (fragment count_tokens target_size mode p)).
Proof.
  intros Hp Hbig. unfold generate_text, generate_text_fuel.
  destruct paragraphs as [|q qs] eqn:Hpool; [done|]. rewrite <-Hpool in *.
  assert (length paragraphs = S (length qs)) as -> by by rewrite Hpool.
  cbn. unfold loop_body. cbn. rewrite Hp, decide_True by lia. done.
Qed.

(** Otherwise the whole paragraph is appended first. *)
Lemma first_candidate_fits p :
  paragraphs !! start_idx = Some p →
  (next_size count_tokens mode p ≤ target_size)%Z →
  ∃ rest, gen = Some (inr ((p +:+ NLNL) +:+ rest)).
Proof.
  intros Hp Hfit.
  assert (start_idx < length paragraphs) as Hstart by by eapply lookup_lt_Some.
  destruct (while_true_initial count_tokens paragraphs start_idx target_size mode Hstart)
    as (m & why & st & Hiter & Hrun & _ & _ & _ & Hres).
  assert (rotate start_idx paragraphs !! 0 = Some p) as Hrot.
  { rewrite <-cursor_lookup by lia. by rewrite Nat.add_0_r, Nat.mod_small. }
  assert (∃ qs, result st = (p +:+ NLNL) :: qs) as [qs Hqs].
  { destruct why.
    - destruct Hres as (Hm & q & Hq & Hover & ->).
      destruct m as [|m].
      + rewrite take_0 in Hover. cbn in Hover. simplify_eq. lia.
      + rewrite decide_False by done.
        destruct (rotate start_idx paragraphs) as [|r rs]; simplify_eq/=. eauto.
    - destruct Hres as (_ & ->).
      destruct (rotate start_idx paragraphs) as [|r rs]; simplify_eq/=. eauto. }
  exists (Py.join "" qs). unfold generate_text, generate_text_fuel.
  rewrite Hrun, decide_True, Hqs, join_empty_cons by lia.
  destruct paragraphs; [cbn in *; lia|done].
Qed.

End first_candidate.

(** ** Termination of the loop *)




(** ** The paragraphs of the result *)

Section path.

Variable paragraphs : list string.
Variable start_idx : nat.
Hypothesis start_in_range : start_idx < length paragraphs.

Lemma cursor_unfold i :
  i < length paragraphs →
  (start_idx + i) `mod` length paragraphs
  = if decide (start_idx + i < length paragraphs) then start_idx + i
    else start_idx + i - length paragraphs.
Proof.
  intros Hi. case_decide; [by apply Nat.mod_small|].
  symmetry. apply (Nat.mod_unique _ _ 1); lia.
Qed.

(** No pool index is visited twice within one cycle. *)
Lemma cursor_path_NoDup m :
  m ≤ length paragraphs → NoDup (cursor_path paragraphs start_idx m).
Proof.
  intros Hm. apply NoDup_fmap_2_strong; [|apply NoDup_seq].
  intros i i' [_ Hi]%elem_of_seq [_ Hi']%elem_of_seq.
  rewrite !cursor_unfold by lia. repeat case_decide; lia.
Qed.

(** The candidates of the walk are the paragraphs at the visited indices. *)
Lemma cursor_path_paragraphs m :
  m ≤ length paragraphs →
  Forall2 (λ i p, paragraphs !! i = Some p)
    (cursor_path paragraphs start_idx m) (take m (rotate start_idx paragraphs)).
Proof.
  intros Hm. apply Forall2_same_length_lookup. split.
  - unfold cursor_path.
    rewrite length_fmap, length_seq, length_take, length_rotate. lia.
  - intros i x p Hx Hp. unfold cursor_path in Hx.
    rewrite list_lookup_fmap in Hx.
    destruct (seq 0 m !! i) as [k|] eqn:Hk; [|done].
    apply lookup_seq in Hk as [-> Hi]. cbn in Hx. simplify_eq.
    apply lookup_take_Some in Hp as [Hp _].
    by rewrite cursor_lookup by lia.
Qed.

End path.

(** The shape of every result: whole paragraphs in cyclic order, or
    else the portion of the first candidate alone. *)
Lemma generate_text_shape count_tokens paragraphs start_idx target_size mode :
  start_idx < length paragraphs →
  ∃ m partial,
    m ≤ length paragraphs
    ∧ generate_text count_tokens paragraphs start_idx target_size mode
      = Some (inr (Py.join ""
                     (appended (take m (rotate start_idx paragraphs)) ++ partial)))
    ∧ (1 ≤ m →
       (total_size count_tokens mode (take m (rotate start_idx paragraphs))
        ≤ target_size)%Z)
    ∧ (1 ≤ m ∧ partial = []
       ∨ m = 0 ∧ ∃ p, paragraphs !! start_idx = Some p
                      ∧ (next_size count_tokens mode p > target_size)%Z
                      ∧ partial = portion count_tokens target_size mode p).
Proof.
  intros Hstart.
  destruct (while_true_initial count_tokens paragraphs start_idx target_size mode Hstart)
    as (m & why & st & Hiter & Hrun & Hsize & _ & Hle & Hres).
  assert (m ≤ length paragraphs) as Hm by (destruct why; cbn in Hiter; lia).
  assert (generate_text count_tokens paragraphs start_idx target_size mode
          = Some (inr (Py.join "" (result st)))) as Hgen.
  { unfold generate_text, generate_text_fuel. rewrite Hrun, decide_True by done.
    destruct paragraphs; [cbn in *; lia|done]. }
  rewrite Hsize in Hle. rewrite Hgen. destruct why.
  - destruct Hres as (_ & p & Hp & Hover & ->). case_decide as Hm0.
    + subst m. exists 0, (portion count_tokens target_size mode p).
      rewrite take_0 in *. split_and!; [lia|done|lia|]. right. split; [done|].
      exists p. split_and!; [|cbn in Hover; lia|done].
      rewrite <-cursor_lookup in Hp by lia.
      by rewrite Nat.add_0_r, Nat.mod_small in Hp.
    + exists m, []. rewrite app_nil_r. split_and!; [done..|]. left. split; [lia|done].
  - destruct Hres as (-> & ->). exists (length paragraphs), [].
    rewrite app_nil_r, firstn_all2 by (by rewrite length_rotate).
    rewrite firstn_all2 in Hle by (by rewrite length_rotate).
    split_and!; [done..|]. left. split; [lia|done].
Qed.

(** C10. One call appends the paragraphs of at most [len(paragraphs)]
    pool indices, pairwise different, in cyclic order from [start_idx];
    a partial fragment is present only when no whole paragraph was
    appended, and it is then the portion of the paragraph at
    [start_idx]. *)
Theorem each_paragraph_at_most_once count_tokens paragraphs start_idx target_size mode :
  start_idx < length paragraphs →
  ∃ m whole partial,
    m ≤ length paragraphs
    ∧ whole = take m (rotate start_idx paragraphs)
    ∧ NoDup (cursor_path paragraphs start_idx m)
    ∧ Forall2 (λ i p, paragraphs !! i = Some p)
        (cursor_path paragraphs start_idx m) whole
    ∧ generate_text count_tokens paragraphs start_idx target_size mode
      = Some (inr (Py.join "" (appended whole ++ partial)))
    ∧ (partial = []
       ∨ m = 0 ∧ ∃ p, paragraphs !! start_idx = Some p
                      ∧ partial = portion count_tokens target_size mode p).
Proof.
  intros Hstart.
  destruct (generate_text_shape count_tokens paragraphs start_idx target_size mode Hstart)
    as (m & partial & Hm & Hgen & _ & Hpartial).
  exists m, (take m (rotate start_idx paragraphs)), partial.
  split_and!; [done|done|by apply cursor_path_NoDup|by apply cursor_path_paragraphs|done|].
  destruct Hpartial as [[_ ->]|(-> & p & Hp & _ & ->)]; [by left|right; eauto].
Qed.

Lemma each_paragraph_at_most_once_witness :
  ∃ m whole partial,
    m ≤ 3
    ∧ whole = take m (rotate 1 ["ab"; "cde"; "f"])
    ∧ NoDup (cursor_path ["ab"; "cde"; "f"] 1 m)
    ∧ Forall2 (λ i p, ["ab"; "cde"; "f"] !! i = Some p)
        (cursor_path ["ab"; "cde"; "f"] 1 m) whole
    ∧ generate_text char_tokens ["ab"; "cde"; "f"] 1 8 "chars"
      = Some (inr (Py.join "" (appended whole ++ partial)))
    ∧ (partial = []
       ∨ m = 0 ∧ ∃ p, ["ab"; "cde"; "f"] !! 1 = Some p
                      ∧ partial = portion char_tokens 8 "chars" p).
Proof.
  apply (each_paragraph_at_most_once char_tokens ["ab"; "cde"; "f"] 1 8 "chars").
  cbn. lia.
Defined.

(** ** Character mode *)

Lemma chars_mode_next_size count_tokens p :
  next_size count_tokens "chars" p = (Z.of_nat (String.length p) + 2)%Z.
Proof.
  unfold next_size. rewrite decide_False by done.
  rewrite string_length_app, length_NLNL. lia.
Qed.

Lemma chars_mode_portion count_tokens target_size p :
  portion count_tokens target_size "chars" p
  = [Py.slice_to p (target_size - 2) +:+ NLNL].
Proof. unfold portion. by rewrite decide_False. Qed.

Lemma appended_snoc ps p : appended (ps ++ [p]) = appended ps ++ [p +:+ NLNL].
Proof. unfold appended. by rewrite fmap_app. Qed.

Lemma appended_ends ps :
  ps ≠ [] → ∃ body, Py.join "" (appended ps) = body +:+ NLNL.
Proof.
  destruct ps as [|p ps _] using rev_ind; [done|]. intros _.
  exists (Py.join "" (appended ps) +:+ p).
  by rewrite appended_snoc, join_empty_app, join_empty_singleton, string_app_assoc.
Qed.

(** In character mode the length of what a run appends is its size. *)
Lemma appended_length count_tokens ps :
  Z.of_nat (String.length (Py.join "" (appended ps)))
  = total_size count_tokens "chars" ps.
Proof.
  induction ps as [|p ps IH]; [done|].
  rewrite total_size_cons, chars_mode_next_size, <-IH.
  change (appended (p :: ps)) with ((p +:+ NLNL) :: appended ps).
  rewrite join_empty_cons, !string_length_app, length_NLNL. lia.
Qed.

(** C9. In character mode the text returned for a non-empty pool is
    never empty and ends with ['\n\n'], for every target, also when it is
    the truncated portion of the first paragraph. *)
Theorem chars_result_ends_with_separator count_tokens paragraphs start_idx target_size :
  start_idx < length paragraphs →
  ∃ text body,
    generate_text count_tokens paragraphs start_idx target_size "chars"
    = Some (inr text)
    ∧ text = body +:+ NLNL
    ∧ text ≠ "".
Proof.
  intros Hstart.
  destruct (generate_text_shape count_tokens paragraphs start_idx target_size
              "chars" Hstart) as (m & partial & Hm & Hgen & _ & Hpartial).
  assert (∃ body, Py.join "" (appended (take m (rotate start_idx paragraphs))
                              ++ partial) = body +:+ NLNL) as [body Hbody].
  { destruct Hpartial as [[Hm1 ->]|(-> & p & _ & _ & ->)].
    - rewrite app_nil_r. apply appended_ends. intros Htake.
      apply (f_equal length) in Htake.
      rewrite length_take, length_rotate in Htake. cbn in Htake. lia.
    - rewrite take_0, chars_mode_portion. cbn. eauto. }
  exists (body +:+ NLNL), body. rewrite Hgen, Hbody. split_and!; [done..|].
  intros Hempty. apply (f_equal String.length) in Hempty.
  rewrite string_length_app, length_NLNL in Hempty. cbn in Hempty. lia.
Qed.

Lemma chars_result_ends_with_separator_witness :
  ∃ text body,
    generate_text char_tokens ["Call me Ishmael."] 0 1 "chars" = Some (inr text)
    ∧ text = body +:+ NLNL
    ∧ text ≠ "".
Proof.
  apply (chars_result_ends_with_separator char_tokens ["Call me Ishmael."] 0 1).
  cbn. lia.
Defined.

(** ** Token mode: the portion of the first paragraph *)

Section words.

Variable count_tokens : string → nat.
Variable target_size : Z.

Local Abbreviation cost := (words_size count_tokens).

Lemma words_size_cons w ws :
  cost (w :: ws) = (Z.of_nat (count_tokens (w +:+ " ")) + cost ws)%Z.
Proof. reflexivity. Qed.

(** The [for] loop of lines 207-212 accepts what the specification's
    greedy rule accepts. *)
Lemma take_words_spec words partial partial_size :
  take_words count_tokens target_size words partial partial_size
  = partial ++ spec_accept count_tokens words partial_size target_size.
Proof.
  revert partial partial_size.
  induction words as [|w ws IH]; intros partial partial_size; cbn.
  - by rewrite app_nil_r.
  - destruct (decide (partial_size + Z.of_nat (count_tokens (w +:+ " "))
                      > target_size)%Z) as [Hbig|Hfit].
    + rewrite decide_False by lia. by rewrite app_nil_r.
    + rewrite decide_True by lia. rewrite IH. by rewrite <-(assoc_L (++)).
Qed.

(** The accepted words are the longest prefix whose running sum stays
    within the budget. *)
Lemma spec_accept_prefix words running :
  ∃ k,
    spec_accept count_tokens words running target_size = take k words
    ∧ (∀ i, i < k → (running + cost (take (S i) words) ≤ target_size)%Z)
    ∧ (∀ w, words !! k = Some w →
         (running + cost (take k words) + Z.of_nat (count_tokens (w +:+ " "))
          > target_size)%Z).
Proof.
  revert running. induction words as [|w ws IH]; intros running.
  - exists 0. split_and!; [done|lia|done].
  - cbn [spec_accept].
    destruct (decide (running + Z.of_nat (count_tokens (w +:+ " "))
                      ≤ target_size)%Z) as [Hfit|Hbig].
    + destruct (IH (running + Z.of_nat (count_tokens (w +:+ " ")))%Z)
        as (k & Hacc & Hin & Hout).
      exists (S k). split_and!.
      * by rewrite Hacc.
      * intros [|i] Hi.
        -- cbn [take]. rewrite take_0, words_size_cons. cbn. lia.
        -- change (take (S (S i)) (w :: ws)) with (w :: take (S i) ws).
           rewrite words_size_cons. specialize (Hin i). lia.
      * intros w' Hw'. change (take (S k) (w :: ws)) with (w :: take k ws).
        rewrite words_size_cons. specialize (Hout w' Hw'). lia.
    + exists 0. split_and!; [done|lia|].
      intros w' [= ->]. rewrite take_0. cbn. lia.
Qed.

Lemma tokens_mode_fragment p :
  fragment count_tokens target_size "tokens" p
  = spec_split_tokens count_tokens p target_size.
Proof.
  unfold fragment, portion, spec_split_tokens. rewrite decide_True by done.
  rewrite take_words_spec, app_nil_l.
  by destruct (spec_accept count_tokens (Py.split p) 0 target_size).
Qed.

End words.

(** C8. In token mode, when the first candidate paragraph does not fit,
    the result is the specification's splitter applied to it: of the
    whitespace-delimited words, the longest prefix whose running sum of
    [count_tokens(word + ' ')] stays within the budget, joined with single
    spaces and followed by ['\n\n']; the empty string when no word fits. *)
Theorem tokens_partial_split count_tokens paragraphs start_idx target_size p :
  paragraphs !! start_idx = Some p →
  (Z.of_nat (count_tokens p) > target_size)%Z →
  generate_text count_tokens paragraphs start_idx target_size "tokens"
  = Some (inr (spec_split_tokens count_tokens p target_size))
  ∧ ∃ k,
      spec_split_tokens count_tokens p target_size
      = match take k (Py.split p) with
        | [] => ""
        | accepted => Py.join " " accepted +:+ NLNL
        end
      ∧ (∀ i, i < k →
           (words_size count_tokens (take (S i) (Py.split p)) ≤ target_size)%Z)
      ∧ (∀ w, Py.split p !! k = Some w →
           (words_size count_tokens (take k (Py.split p))
            + Z.of_nat (count_tokens (w +:+ " ")) > target_size)%Z).
Proof.
  intros Hp Hbig. split.
  - rewrite <-tokens_mode_fragment. apply first_candidate_too_big; [done|].
    unfold next_size. by rewrite decide_True.
  - destruct (spec_accept_prefix count_tokens target_size (Py.split p) 0)
      as (k & Hacc & Hin & Hout).
    exists k. unfold spec_split_tokens. rewrite Hacc. split_and!; [done| |].
    + intros i Hi. specialize (Hin i Hi). lia.
    + intros w Hw. specialize (Hout w Hw). lia.
Qed.

Lemma tokens_partial_split_witness :
  generate_text char_tokens ["It was the best of times"] 0 10 "tokens"
  = Some (inr ("It was" +:+ NLNL))
  ∧ spec_split_tokens char_tokens "It was the best of times" 10 = "It was" +:+ NLNL.
Proof.
  destruct (tokens_partial_split char_tokens ["It was the best of times"] 0 10
              "It was the best of times") as [Hgen _].
  - reflexivity.
  - cbn. lia.
  - split; [exact Hgen|reflexivity].
Defined.

(** ** A pool of paragraphs that are all too big *)





(** ** Character mode: the portion of the first paragraph *)

Lemma chars_mode_fragment count_tokens target_size p :
  fragment count_tokens target_size "chars" p
  = Py.slice_to p (target_size - 2) +:+ NLNL.
Proof. unfold fragment. by rewrite chars_mode_portion. Qed.

(** From a budget of two characters on, the code takes what the
    specification's splitter takes. *)
Lemma chars_partial_split_agrees count_tokens paragraphs start_idx target_size p :
  paragraphs !! start_idx = Some p →
  (2 ≤ target_size < Z.of_nat (String.length p) + 2)%Z →
  generate_text count_tokens paragraphs start_idx target_size "chars"
  = Some (inr (spec_split_chars p target_size)).
Proof.
  intros Hp Htarget. unfold spec_split_chars.
  rewrite <-slice_to_nonneg, <-(chars_mode_fragment count_tokens) by lia.
  apply first_candidate_too_big; [done|]. rewrite chars_mode_next_size. lia.
Qed.


(** C6. One paragraph of 500 characters and a target of 50: the result
    is the first 48 characters of the paragraph followed by ['\n\n'], 50
    characters in all. *)
Theorem single_long_paragraph count_tokens p :
  String.length p = 500 →
  generate_text count_tokens [p] 0 50 "chars"
  = Some (inr (String.substring 0 48 p +:+ NLNL))
  ∧ String.length (String.substring 0 48 p +:+ NLNL) = 50.
Proof.
  intros Hlen. split.
  - rewrite (chars_partial_split_agrees _ _ _ _ p); [done|done|lia].
  - rewrite string_length_app, substring_0_length, length_NLNL. lia.
Qed.

Lemma single_long_paragraph_witness :
  generate_text char_tokens [filler "x" 500] 0 50 "chars"
  = Some (inr (filler "x" 48 +:+ NLNL))
  ∧ String.length (filler "x" 48 +:+ NLNL) = 50.
Proof.
  destruct (single_long_paragraph char_tokens (filler "x" 500)) as [Hgen Hlen].
  - reflexivity.
  - split; [exact Hgen|exact Hlen].
Defined.

(** ** The scenario of three paragraphs *)

(** C5 (amended). Paragraphs of 40, 50 and 60 characters, start index 0,
    target 100, character mode: paragraph 0 is appended (accumulated 42),
    paragraph 1 is appended (accumulated 94), paragraph 2 would bring the
    total to 156 > 100 and ends the loop; the result is paragraphs 0 and
    1, each followed by ['\n\n'], of total length 94 ≤ 100. *)
Theorem three_paragraphs_scenario count_tokens p0 p1 p2 :
  String.length p0 = 40 → String.length p1 = 50 → String.length p2 = 60 →
  ∃ st1 st2,
    loop_body count_tokens [p0; p1; p2] 0 100 "chars" (initial 0) = Continue st1
    ∧ result st1 = [p0 +:+ NLNL] ∧ current_size st1 = 42%Z
    ∧ loop_body count_tokens [p0; p1; p2] 0 100 "chars" st1 = Continue st2
    ∧ result st2 = [p0 +:+ NLNL; p1 +:+ NLNL] ∧ current_size st2 = 94%Z
    ∧ (current_size st2 + next_size count_tokens "chars" p2 = 156)%Z
    ∧ loop_body count_tokens [p0; p1; p2] 0 100 "chars" st2 = Break Overflow st2
    ∧ generate_text count_tokens [p0; p1; p2] 0 100 "chars"
      = Some (inr ((p0 +:+ NLNL) +:+ (p1 +:+ NLNL)))
    ∧ String.length ((p0 +:+ NLNL) +:+ (p1 +:+ NLNL)) = 94
    ∧ 94 ≤ 100.
Proof.
  intros H0 H1 H2.
  assert (next_size count_tokens "chars" p0 = 42%Z) as Hs0
    by (rewrite chars_mode_next_size; lia).
  assert (next_size count_tokens "chars" p1 = 52%Z) as Hs1
    by (rewrite chars_mode_next_size; lia).
  assert (next_size count_tokens "chars" p2 = 62%Z) as Hs2
    by (rewrite chars_mode_next_size; lia).
  assert (loop_body count_tokens [p0; p1; p2] 0 100 "chars" (initial 0)
          = Continue (Locals [p0 +:+ NLNL] 42 1)) as Hstep0.
  { unfold loop_body. cbn. by rewrite Hs0. }
  assert (loop_body count_tokens [p0; p1; p2] 0 100 "chars"
            (Locals [p0 +:+ NLNL] 42 1)
          = Continue (Locals [p0 +:+ NLNL; p1 +:+ NLNL] 94 2)) as Hstep1.
  { unfold loop_body. cbn. by rewrite Hs1. }
  assert (loop_body count_tokens [p0; p1; p2] 0 100 "chars"
            (Locals [p0 +:+ NLNL; p1 +:+ NLNL] 94 2)
          = Break Overflow (Locals [p0 +:+ NLNL; p1 +:+ NLNL] 94 2)) as Hstep2.
  { unfold loop_body. cbn. by rewrite Hs2. }
  eexists _, _. split_and!; [exact Hstep0|done|done|exact Hstep1|done|done| |
                             exact Hstep2| | |lia].
  - cbn. lia.
  - unfold generate_text, generate_text_fuel.
    cbn [length while_true]. rewrite Hstep0, Hstep1, Hstep2. cbn [result].
    by rewrite !join_empty_cons, string_app_nil_r.
  - rewrite !string_length_app, length_NLNL. lia.
Qed.

Lemma three_paragraphs_scenario_witness :
  generate_text char_tokens [filler "a" 40; filler "b" 50; filler "c" 60] 0 100 "chars"
  = Some (inr ((filler "a" 40 +:+ NLNL) +:+ (filler "b" 50 +:+ NLNL))).
Proof.
  destruct (three_paragraphs_scenario char_tokens
              (filler "a" 40) (filler "b" 50) (filler "c" 60))
    as (st1 & st2 & _ & _ & _ & _ & _ & _ & _ & _ & Hgen & _);
    [reflexivity..|exact Hgen].
Defined.

(** The result of that scenario has 94 characters, not 92: each of the
    two paragraphs is followed by its own separator. *)
Lemma three_paragraphs_length_is_not_92 :
  ∃ text,
    generate_text char_tokens [filler "a" 40; filler "b" 50; filler "c" 60]
      0 100 "chars" = Some (inr text)
    ∧ String.length text = 94
    ∧ String.length text ≠ 92.
Proof.
  eexists. split; [reflexivity|]. split; [reflexivity|].
  intros Hlen. vm_compute in Hlen. lia.
Qed.

(** ** Targets below the separator, and targets that are not positive *)

(** C2, at target 1: the specification's splitter takes no character of
    the paragraph, the code takes all but the last one, because the slice
    bound [target_size - 2 = -1] counts from the end. *)
Theorem chars_partial_split_target_1 :
  generate_text char_tokens ["Call me Ishmael."] 0 1 "chars"
  = Some (inr ("Call me Ishmael" +:+ NLNL))
  ∧ spec_split_chars "Call me Ishmael." 1 = NLNL
  ∧ "Call me Ishmael" +:+ NLNL ≠ spec_split_chars "Call me Ishmael." 1.
Proof. split_and!; [reflexivity|reflexivity|discriminate]. Qed.

(** In character mode the result stays within every target of at least
    two characters. *)
Lemma chars_result_within_target count_tokens paragraphs start_idx target_size :
  start_idx < length paragraphs →
  (2 ≤ target_size)%Z →
  ∃ text,
    generate_text count_tokens paragraphs start_idx target_size "chars"
    = Some (inr text)
    ∧ (measured_size count_tokens "chars" text ≤ target_size)%Z.
Proof.
  intros Hstart Htarget.
  destruct (generate_text_shape count_tokens paragraphs start_idx target_size
              "chars" Hstart) as (m & partial & Hm & Hgen & Hle & Hpartial).
  eexists. split; [exact Hgen|]. unfold measured_size. rewrite decide_False by done.
  destruct Hpartial as [[Hm1 ->]|(-> & p & _ & Hbig & ->)].
  - rewrite app_nil_r, (appended_length count_tokens). by apply Hle.
  - rewrite take_0, app_nil_l, chars_mode_portion, join_empty_singleton.
    rewrite string_length_app, length_NLNL, Nat2Z.inj_add, slice_to_length.
    rewrite decide_False by lia. lia.
Qed.

(** C1, at target 1 in character mode: the returned text has 26
    characters. *)
Theorem chars_result_exceeds_target_1 :
  generate_text char_tokens ["Marley was dead, to begin"; "with."] 0 1 "chars"
  = Some (inr ("Marley was dead, to begi" +:+ NLNL))
  ∧ measured_size char_tokens "chars" ("Marley was dead, to begi" +:+ NLNL) = 26%Z
  ∧ ¬ (measured_size char_tokens "chars" ("Marley was dead, to begi" +:+ NLNL) ≤ 1)%Z.
Proof. split_and!; [reflexivity|reflexivity|]. vm_compute. by intros H. Qed.

(** With one token per character, token mode measures a paragraph
    without the separator it appends after it. *)
Example tokens_result_counts_no_separator :
  generate_text char_tokens ["ab"] 0 2 "tokens" = Some (inr ("ab" +:+ NLNL))
  ∧ measured_size char_tokens "tokens" ("ab" +:+ NLNL) = 4%Z.
Proof. split; reflexivity. Qed.




(** * Further properties of the accumulation loop *)

Lemma chars_result_within_target_witness :
  ∃ text,
    generate_text char_tokens ["ab"; "cde"; "f"] 1 8 "chars" = Some (inr text)
    ∧ (measured_size char_tokens "chars" text ≤ 8)%Z.
Proof.
  apply (chars_result_within_target char_tokens ["ab"; "cde"; "f"] 1 8);
    [cbn; lia|lia].
Defined.

(** When the paragraph at [start_idx] fits, nothing is truncated: the
    result is the longest run of whole paragraphs, in cyclic order from
    [start_idx] and of at most one cycle, whose accounted size stays
    within the target. *)
Theorem longest_fitting_run count_tokens paragraphs start_idx target_size mode p :
  paragraphs !! start_idx = Some p →
  (next_size count_tokens mode p ≤ target_size)%Z →
  ∃ m,
    1 ≤ m ≤ length paragraphs
    ∧ generate_text count_tokens paragraphs start_idx target_size mode
      = Some (inr (Py.join "" (appended (take m (rotate start_idx paragraphs)))))
    ∧ (total_size count_tokens mode (take m (rotate start_idx paragraphs))
       ≤ target_size)%Z
    ∧ (∀ q, rotate start_idx paragraphs !! m = Some q →
         (total_size count_tokens mode (take m (rotate start_idx paragraphs))
          + next_size count_tokens mode q > target_size)%Z).
Proof.
  intros Hp Hfit.
  assert (start_idx < length paragraphs) as Hstart by by eapply lookup_lt_Some.
  destruct (while_true_initial count_tokens paragraphs start_idx target_size mode Hstart)
    as (m & why & st & Hiter & Hrun & Hsize & _ & Hle & Hres).
  assert (rotate start_idx paragraphs !! 0 = Some p) as Hrot.
  { rewrite <-cursor_lookup by lia. by rewrite Nat.add_0_r, Nat.mod_small. }
  assert (generate_text count_tokens paragraphs start_idx target_size mode
          = Some (inr (Py.join "" (result st)))) as Hgen.
  { unfold generate_text, generate_text_fuel. rewrite Hrun, decide_True by done.
    destruct paragraphs; [cbn in *; lia|done]. }
  rewrite Hsize in Hle. exists m. destruct why.
  - destruct Hres as (Hm & q & Hq & Hover & Hst).
    assert (m ≠ 0) as Hm0.
    { intros ->. rewrite take_0 in Hover. cbn in Hover. simplify_eq. lia. }
    rewrite decide_False in Hst by done.
    split_and!; [lia|lia|by rewrite Hgen, Hst|apply Hle; lia|].
    intros q' Hq'. by simplify_eq.
  - destruct Hres as (-> & Hst).
    rewrite firstn_all2 in * by (by rewrite length_rotate).
    split_and!; [lia|lia|by rewrite Hgen, Hst|apply Hle; lia|].
    intros q' Hq'%lookup_lt_Some. rewrite length_rotate in Hq'. lia.
Qed.

Lemma longest_fitting_run_witness :
  ∃ m,
    1 ≤ m ≤ 3
    ∧ generate_text char_tokens ["ab"; "cde"; "f"] 1 8 "chars"
      = Some (inr (Py.join "" (appended (take m (rotate 1 ["ab"; "cde"; "f"])))))
    ∧ (total_size char_tokens "chars" (take m (rotate 1 ["ab"; "cde"; "f"])) ≤ 8)%Z
    ∧ (∀ q, rotate 1 ["ab"; "cde"; "f"] !! m = Some q →
         (total_size char_tokens "chars" (take m (rotate 1 ["ab"; "cde"; "f"]))
          + next_size char_tokens "chars" q > 8)%Z).
Proof.
  apply (longest_fitting_run char_tokens ["ab"; "cde"; "f"] 1 8 "chars" "cde");
    [reflexivity|by vm_compute].
Defined.

(** In character mode, a first paragraph that does not fit is cut so
    that the result has exactly [target_size] characters, for every
    target of at least two. *)
Theorem chars_truncation_fills_target count_tokens paragraphs start_idx target_size p :
  paragraphs !! start_idx = Some p →
  (2 ≤ target_size < Z.of_nat (String.length p) + 2)%Z →
  ∃ text,
    generate_text count_tokens paragraphs start_idx target_size "chars"
    = Some (inr text)
    ∧ text = String.substring 0 (Z.to_nat (target_size - 2)) p +:+ NLNL
    ∧ Z.of_nat (String.length text) = target_size.
Proof.
  intros Hp Htarget. eexists. split_and!; [|done|].
  - by apply chars_partial_split_agrees.
  - rewrite string_length_app, substring_0_length, length_NLNL. lia.
Qed.

Lemma chars_truncation_fills_target_witness :
  ∃ text,
    generate_text char_tokens ["Call me Ishmael."; "Some years ago"] 0 9 "chars"
    = Some (inr text)
    ∧ text = "Call me" +:+ NLNL
    ∧ Z.of_nat (String.length text) = 9%Z.
Proof.
  apply (chars_truncation_fills_target char_tokens
           ["Call me Ishmael."; "Some years ago"] 0 9 "Call me Ishmael.");
    [reflexivity|cbn; lia].
Defined.

(** * The paragraph pool *)

Section stripping.

Variable strips : ascii → bool.

Lemma lstrip_if_first s :
  PyStr.lstrip_if strips s = ""
  ∨ ∃ c, first_char (PyStr.lstrip_if strips s) = Some c ∧ strips c = false.
Proof.
  induction s as [|c s IH]; cbn; [by left|].
  destruct (strips c) eqn:Hc; [done|]. right. by exists c.
Qed.

Lemma lstrip_if_last s :
  PyStr.lstrip_if strips s ≠ "" →
  last_char (PyStr.lstrip_if strips s) = last_char s.
Proof.
  induction s as [|c s IH]; cbn; [done|].
  destruct (strips c); [|done]. intros Hne. rewrite IH by done.
  destruct s; [done|done].
Qed.

Lemma rstrip_if_last s :
  PyStr.rstrip_if strips s = ""
  ∨ ∃ c, last_char (PyStr.rstrip_if strips s) = Some c ∧ strips c = false.
Proof.
  induction s as [|c s IH]; cbn; [by left|].
  destruct (PyStr.rstrip_if strips s) as [|d r] eqn:Hr.
  - destruct (strips c) eqn:Hc; [by left|]. right. by exists c.
  - right. destruct IH as [?|IH]; [done|]. done.
Qed.

Lemma rstrip_if_first s :
  PyStr.rstrip_if strips s ≠ "" →
  first_char (PyStr.rstrip_if strips s) = first_char s.
Proof.
  destruct s as [|c s]; cbn; [done|].
  destruct (PyStr.rstrip_if strips s); [|done]. by destruct (strips c).
Qed.

(** Stripping leaves alone what has nothing to strip. *)
Lemma lstrip_if_id s c :
  first_char s = Some c → strips c = false → PyStr.lstrip_if strips s = s.
Proof. destruct s; cbn; [done|]. by intros [= ->] ->. Qed.

Lemma rstrip_if_id s c :
  last_char s = Some c → strips c = false → PyStr.rstrip_if strips s = s.
Proof.
  induction s as [|a s IH]; [done|]. intros Hlast Hc. cbn.
  destruct s as [|b s].
  - cbn in *. simplify_eq. by rewrite Hc.
  - rewrite IH by done. done.
Qed.

Lemma rstrip_if_no_nlnl s :
  has_nlnl s = false → has_nlnl (PyStr.rstrip_if strips s) = false.
Proof.
  induction s as [|c s IH]; [done|]. intros Hs.
  pose proof (rstrip_if_first s) as Hfirst. cbn.
  destruct (PyStr.rstrip_if strips s) as [|d r] eqn:Hr.
  - by destruct (strips c).
  - destruct s as [|c' s']; [done|].
    cbn in Hfirst. specialize (Hfirst ltac:(done)). simplify_eq.
    cbn [has_nlnl] in Hs |- *. apply orb_false_iff in Hs as [Hcc Hs].
    rewrite Hcc. by apply IH.
Qed.

Lemma lstrip_if_no_nlnl s :
  has_nlnl s = false → has_nlnl (PyStr.lstrip_if strips s) = false.
Proof.
  induction s as [|c s IH]; [done|]. intros Hs. cbn.
  destruct (strips c); [|done]. apply IH.
  destruct s; [done|]. cbn [has_nlnl] in Hs. by apply orb_false_iff in Hs as [_ ?].
Qed.

End stripping.

Lemma strip_trimmed s : PyStr.strip s = "" ∨ is_trimmed (PyStr.strip s) = true.
Proof.
  unfold PyStr.strip, is_trimmed.
  destruct (lstrip_if_first Py.isspace (PyStr.rstrip_if Py.isspace s))
    as [?|(a & Ha & Hsa)]; [by left|right].
  assert (PyStr.lstrip_if Py.isspace (PyStr.rstrip_if Py.isspace s) ≠ "") as Hne.
  { intros Hempty. by rewrite Hempty in Ha. }
  rewrite Ha, lstrip_if_last by done.
  destruct (rstrip_if_last Py.isspace s) as [Hempty|(b & -> & Hsb)].
  - by rewrite Hempty in Hne.
  - by rewrite Hsa, Hsb.
Qed.

Lemma strip_id s : is_trimmed s = true → PyStr.strip s = s.
Proof.
  unfold is_trimmed, PyStr.strip. intros Hs.
  destruct (first_char s) as [a|] eqn:Ha; [|done].
  destruct (last_char s) as [b|] eqn:Hb; [|done].
  apply andb_true_iff in Hs as [Hsa Hsb].
  rewrite (rstrip_if_id _ _ b), (lstrip_if_id _ _ a); try done.
  - by destruct (Py.isspace a).
  - by destruct (Py.isspace b).
Qed.

Lemma strip_no_nlnl s : has_nlnl s = false → has_nlnl (PyStr.strip s) = false.
Proof. intros Hs. by apply lstrip_if_no_nlnl, rstrip_if_no_nlnl. Qed.

(** ** Splitting at blank lines *)

Lemma split_nlnl_cons c c' s :
  PyStr.split_nlnl (String c (String c' s))
  = if bool_decide (c = "010"%char) && bool_decide (c' = "010"%char)
    then "" :: PyStr.split_nlnl s
    else match PyStr.split_nlnl (String c' s) with
         | piece :: pieces => String c piece :: pieces
         | [] => [String c ""]
         end.
Proof. reflexivity. Qed.

Lemma split_nlnl_nonempty s : PyStr.split_nlnl s ≠ [].
Proof.
  destruct s as [|c [|c' s]]; [done..|]. rewrite split_nlnl_cons.
  case_match; [done|]. by destruct (PyStr.split_nlnl (String c' s)).
Qed.

(** A first piece that is not empty starts like the text. *)
Lemma split_nlnl_first s d piece pieces :
  PyStr.split_nlnl s = String d piece :: pieces → first_char s = Some d.
Proof.
  destruct s as [|c [|c' s]]; [done|by intros [= -> _]|].
  rewrite split_nlnl_cons. case_match; [done|].
  destruct (PyStr.split_nlnl (String c' s)); by intros [= -> _].
Qed.

(** A property of all pieces, shown for a text and its extensions by one
    character at a time. *)
Lemma split_nlnl_ind (P : string → list string → Prop) :
  P "" [""] →
  (∀ c, P (String c "") [String c ""]) →
  (∀ s, P s (PyStr.split_nlnl s) →
        P (String "010" (String "010" s)) ("" :: PyStr.split_nlnl s)) →
  (∀ c c' s piece pieces,
     bool_decide (c = "010"%char) && bool_decide (c' = "010"%char) = false →
     PyStr.split_nlnl (String c' s) = piece :: pieces →
     P (String c' s) (piece :: pieces) →
     P (String c (String c' s)) (String c piece :: pieces)) →
  ∀ s, P s (PyStr.split_nlnl s).
Proof.
  intros Hnil Hone Hsep Hstep.
  assert (∀ s, P s (PyStr.split_nlnl s) ∧ ∀ c, P (String c s) (PyStr.split_nlnl (String c s)))
    as Hboth; [|intros s; apply Hboth].
  induction s as [|c' s [IH1 IH2]]; [split; [done|intros c; apply Hone]|].
  split; [apply IH2|]. intros c. rewrite split_nlnl_cons.
  destruct (bool_decide (c = "010"%char) && bool_decide (c' = "010"%char)) eqn:Hcc.
  - apply andb_true_iff in Hcc as [->%bool_decide_eq_true ->%bool_decide_eq_true].
    by apply Hsep.
  - destruct (PyStr.split_nlnl (String c' s)) as [|piece pieces] eqn:Hsplit.
    + by apply split_nlnl_nonempty in Hsplit.
    + apply Hstep; [done..|]. rewrite <-Hsplit. apply IH2.
Qed.

Lemma has_nlnl_cons c c' s :
  has_nlnl (String c (String c' s))
  = bool_decide (c = "010"%char) && bool_decide (c' = "010"%char)
    || has_nlnl (String c' s).
Proof. reflexivity. Qed.

(** No piece contains the separator. *)
Lemma split_nlnl_no_nlnl s :
  Forall (λ piece, has_nlnl piece = false) (PyStr.split_nlnl s).
Proof.
  apply (split_nlnl_ind (λ _ pieces, Forall (λ piece, has_nlnl piece = false) pieces)).
  - by repeat constructor.
  - intros c. by repeat constructor.
  - intros s' IH. by constructor.
  - intros c c' s' piece pieces Hcc Hsplit [Hpiece Hpieces]%Forall_cons.
    constructor; [|done]. destruct piece as [|d piece]; [done|].
    apply split_nlnl_first in Hsplit. cbn in Hsplit. simplify_eq.
    by rewrite has_nlnl_cons, Hcc, Hpiece.
Qed.

(** Joining the pieces with the separator gives the text back. *)
Lemma join_split_nlnl s : Py.join NLNL (PyStr.split_nlnl s) = s.
Proof.
  apply (split_nlnl_ind (λ s pieces, Py.join NLNL pieces = s)); try done.
  - intros s' IH. unfold Py.join in *. cbn [String.concat].
    destruct (PyStr.split_nlnl s') eqn:Hs'; [by apply split_nlnl_nonempty in Hs'|].
    by rewrite IH.
  - intros c c' s' piece pieces _ _ IH. unfold Py.join in *. cbn [String.concat] in *.
    destruct pieces; [by rewrite IH|]. by rewrite string_app_cons, IH.
Qed.

(** ** The paragraphs of a source text *)

Lemma paragraphs_of_pieces pieces :
  Forall (λ piece, has_nlnl piece = false) pieces →
  Forall (λ p, is_trimmed p = true ∧ has_nlnl p = false)
    (omap (λ p, let p' := PyStr.strip p in
                if decide (p' = "") then None else Some p') pieces).
Proof.
  induction 1 as [|piece pieces Hpiece _ IH]; [constructor|]. cbn.
  case_decide as Hempty; [done|]. cbn. constructor; [|done]. split.
  - by destruct (strip_trimmed piece).
  - by apply strip_no_nlnl.
Qed.

Lemma pool_of_clean source_texts :
  Forall (λ p, is_trimmed p = true ∧ has_nlnl p = false) (pool_of source_texts).
Proof.
  unfold pool_of. induction source_texts as [|text texts IH]; [constructor|].
  cbn. apply Forall_app. split; [|done].
  apply paragraphs_of_pieces, split_nlnl_no_nlnl.
Qed.

(** Every paragraph of the pool is non-empty, neither starts nor ends
    with whitespace, and contains no blank-line separator ['\n\n'],
    whatever texts were fetched. *)
Theorem pool_paragraphs_clean source_texts p :
  p ∈ pool_of source_texts →
  p ≠ "" ∧ is_trimmed p = true ∧ has_nlnl p = false.
Proof.
  intros Hp. pose proof (pool_of_clean source_texts) as Hall.
  rewrite Forall_forall in Hall. destruct (Hall p Hp) as [Htrim Hsep].
  split_and!; [|done..]. by intros ->.
Qed.

Lemma pool_paragraphs_clean_witness :
  "Second" ≠ "" ∧ is_trimmed "Second" = true ∧ has_nlnl "Second" = false.
Proof.
  apply (pool_paragraphs_clean
           [" First." +:+ NLNL +:+ "Second " +:+ NLNL +:+ "  " +:+ NLNL +:+ "Third"]).
  vm_compute. apply list_elem_of_In. right. by left.
Defined.

(** *** Texts without paragraphs *)

Lemma all_space_app s t :
  all_space (s +:+ t) = all_space s && all_space t.
Proof.
  induction s as [|c s IH]; [done|]. rewrite string_app_cons. cbn.
  by rewrite IH, andb_assoc.
Qed.

Lemma rstrip_all_space s : all_space s = true → PyStr.rstrip_if Py.isspace s = "".
Proof.
  induction s as [|c s IH]; [done|]. cbn. intros [Hc Hs]%andb_true_iff.
  by rewrite IH, Hc.
Qed.

Lemma all_space_rstrip s :
  all_space (PyStr.rstrip_if Py.isspace s) = true → all_space s = true.
Proof.
  induction s as [|c s IH]; [done|]. cbn.
  destruct (PyStr.rstrip_if Py.isspace s) as [|d r] eqn:Hr.
  - destruct (Py.isspace c) eqn:Hc; cbn; [|by rewrite Hc].
    intros _. by rewrite IH.
  - cbn. intros [Hc Hdr]%andb_true_iff. rewrite Hc. by apply IH.
Qed.

Lemma all_space_lstrip s :
  PyStr.lstrip_if Py.isspace s = "" → all_space s = true.
Proof.
  induction s as [|c s IH]; [done|]. cbn.
  destruct (Py.isspace c); [done|done].
Qed.

Lemma strip_empty_iff s : PyStr.strip s = "" ↔ all_space s = true.
Proof.
  unfold PyStr.strip. split.
  - intros Hs. by apply all_space_rstrip, all_space_lstrip.
  - intros Hs. by rewrite rstrip_all_space.
Qed.

Lemma all_space_join pieces :
  all_space (Py.join NLNL pieces) = true ↔ Forall (λ p, all_space p = true) pieces.
Proof.
  unfold Py.join. induction pieces as [|p pieces IH]; [done|].
  cbn [String.concat]. rewrite Forall_cons. destruct pieces as [|q pieces].
  - rewrite Forall_nil. tauto.
  - rewrite !all_space_app, <-IH. change (all_space NLNL) with true.
    rewrite andb_true_l, andb_true_iff. done.
Qed.

(** A source text has no paragraph at all exactly when every one of its
    characters is whitespace; in particular the empty text has none. *)
Theorem paragraphs_of_empty_iff source_text :
  paragraphs_of source_text = [] ↔ all_space source_text = true.
Proof.
  rewrite <-(join_split_nlnl source_text) at 2. rewrite all_space_join.
  unfold paragraphs_of. induction (PyStr.split_nlnl source_text) as [|p pieces IH].
  - by rewrite Forall_nil.
  - rewrite Forall_cons, <-IH, <-strip_empty_iff. cbn.
    case_decide as Hp; [tauto|]. cbn. split; [done|by intros [? _]].
Qed.

(** ** Reading a generated text back *)

Lemma last_char_cons c d s : last_char (String c (String d s)) = last_char (String d s).
Proof. reflexivity. Qed.

(** A piece without separator that does not end in a line feed is split
    off at the separator that follows it. *)
Lemma split_nlnl_piece p rest :
  has_nlnl p = false →
  last_char p ≠ Some "010"%char →
  PyStr.split_nlnl (p +:+ NLNL +:+ rest) = p :: PyStr.split_nlnl rest.
Proof.
  induction p as [|c p IH]; intros Hp Hlast; [done|].
  rewrite string_app_cons. destruct p as [|c' p].
  - change ("" +:+ NLNL +:+ rest) with (String "010" (String "010" rest)) in *.
    rewrite split_nlnl_cons. cbn in Hlast.
    rewrite (bool_decide_eq_false_2 (c = "010"%char)) by congruence.
    cbn [andb]. by rewrite (IH eq_refl) by done.
  - rewrite string_app_cons, split_nlnl_cons, <-string_app_cons.
    rewrite has_nlnl_cons in Hp. apply orb_false_iff in Hp as [-> Hp].
    rewrite last_char_cons in Hlast. by rewrite IH.
Qed.

Lemma is_trimmed_last p :
  is_trimmed p = true → p ≠ "" ∧ last_char p ≠ Some "010"%char.
Proof.
  unfold is_trimmed. destruct (first_char p) eqn:Ha; [|done].
  destruct (last_char p) as [b|] eqn:Hb; [|done].
  intros [_ Hsb]%andb_true_iff. split; [by intros ->|].
  intros [= ->]. done.
Qed.

(** What the loop appends for whole paragraphs of a pool is read back,
    by the pool's own splitting, as exactly these paragraphs. *)
Lemma paragraphs_of_appended ps :
  Forall (λ p, is_trimmed p = true ∧ has_nlnl p = false) ps →
  paragraphs_of (Py.join "" (appended ps)) = ps.
Proof.
  induction 1 as [|p ps [Htrim Hsep] _ IH]; [done|].
  change (appended (p :: ps)) with ((p +:+ NLNL) :: appended ps).
  rewrite join_empty_cons, string_app_assoc.
  destruct (is_trimmed_last p Htrim) as [Hne Hlast].
  unfold paragraphs_of in *. rewrite split_nlnl_piece by done. cbn.
  rewrite strip_id by done. rewrite decide_False by done. cbn. by rewrite IH.
Qed.

(** The paragraphs of a text generated from whole paragraphs are the
    paragraphs that were selected: when the pool comes from fetched
    texts and the paragraph at [start_idx] fits, splitting the result at
    blank lines gives back a run of the pool in cyclic order. *)
Theorem generated_text_reads_back count_tokens source_texts start_idx target_size mode p :
  pool_of source_texts !! start_idx = Some p →
  (next_size count_tokens mode p ≤ target_size)%Z →
  ∃ m text,
    1 ≤ m ≤ length (pool_of source_texts)
    ∧ generate_text count_tokens (pool_of source_texts) start_idx target_size mode
      = Some (inr text)
    ∧ paragraphs_of text = take m (rotate start_idx (pool_of source_texts)).
Proof.
  intros Hp Hfit.
  assert (start_idx < length (pool_of source_texts)) as Hstart
    by by eapply lookup_lt_Some.
  destruct (generate_text_shape count_tokens (pool_of source_texts) start_idx
              target_size mode Hstart) as (m & partial & Hm & Hgen & _ & Hpartial).
  destruct Hpartial as [[Hm1 ->]|(_ & q & Hq & Hbig & _)]; [|simplify_eq; lia].
  rewrite app_nil_r in Hgen. exists m. eexists. split_and!; [done|done|done|].
  apply paragraphs_of_appended, Forall_take. unfold rotate.
  apply Forall_app. split; [apply Forall_drop|apply Forall_take];
    apply pool_of_clean.
Qed.

Lemma generated_text_reads_back_witness :
  ∃ m text,
    1 ≤ m ≤ 3
    ∧ generate_text char_tokens ["First."; "Second"; "Third"] 1 20 "chars"
      = Some (inr text)
    ∧ paragraphs_of text = take m (rotate 1 ["First."; "Second"; "Third"]).
Proof.
  apply (generated_text_reads_back char_tokens
           [" First." +:+ NLNL +:+ "Second " +:+ NLNL +:+ "  " +:+ NLNL +:+ "Third"]
           1 20 "chars" "Second"); [reflexivity|by vm_compute].
Defined.

(** * [format_number] *)

Lemma drop_commas_commas digits :
  Forall (λ c, c ≠ ","%char) (String.list_ascii_of_string digits) →
  drop_commas (commas digits) = digits.
Proof.
  induction digits as [|c digits IH]; [done|]. cbn [String.list_ascii_of_string].
  intros [Hc Hdigits]%Forall_cons. cbn [commas drop_commas].
  rewrite bool_decide_eq_false_2 by done. f_equal.
  case_match; [|by apply IH]. cbn [drop_commas].
  rewrite bool_decide_eq_true_2 by done. by apply IH.
Qed.

Lemma string_of_uint_digits d :
  Forall (λ c, c ≠ ","%char) (String.list_ascii_of_string (NilEmpty.string_of_uint d)).
Proof. induction d; cbn; constructor; done. Qed.

Lemma string_of_uint_no_commas d :
  Forall (λ c, c ≠ ","%char) (String.list_ascii_of_string (NilZero.string_of_uint d)).
Proof.
  destruct d; try apply string_of_uint_digits. cbn. by repeat constructor.
Qed.

Lemma to_int_nonnil n : Z.to_int n ≠ Pos Nil ∧ Z.to_int n ≠ Neg Nil.
Proof.
  destruct n as [|p|p]; cbn; split; try done;
    intros [= Hp]; by apply Unsigned.to_uint_nonnil in Hp.
Qed.

(** Dropping the commas of a formatted number and reading the digits as
    a decimal integer gives the number back, for every integer. *)
Theorem format_number_read_back n : read_number (format_number n) = Some n.
Proof.
  unfold read_number, format_number.
  destruct (to_int_nonnil n) as [Hpos Hneg].
  pose proof (DecimalZ.of_to n) as Hn.
  pose proof (NilZero.isi (Z.to_int n) Hpos Hneg) as Hread.
  destruct (Z.to_int n) as [d|d]; cbn [NilZero.string_of_int] in Hread.
  - rewrite drop_commas_commas by apply string_of_uint_no_commas.
    rewrite Hread. exact (f_equal Some Hn).
  - cbn [drop_commas]. rewrite bool_decide_eq_false_2 by done.
    rewrite drop_commas_commas by apply string_of_uint_no_commas.
    rewrite Hread. exact (f_equal Some Hn).
Qed.





(** * [parse_size] *)

Lemma lower_app s t : PyStr.lower (s +:+ t) = PyStr.lower s +:+ PyStr.lower t.
Proof.
  induction s as [|c s IH]; [done|]. rewrite string_app_cons. cbn.
  by rewrite IH, string_app_cons.
Qed.

Lemma filler_S c n : filler c (S n) = String c (filler c n).
Proof. reflexivity. Qed.

Lemma last_char_filler c n : last_char (filler c (S n)) = Some c.
Proof.
  induction n as [|n IH]; [done|]. rewrite filler_S.
  rewrite filler_S in IH |- *. by rewrite last_char_cons.
Qed.

Lemma last_char_app s c t : last_char (s +:+ String c t) = last_char (String c t).
Proof.
  induction s as [|a s IH]; [done|]. rewrite string_app_cons.
  destruct s as [|b s]; [done|].
  rewrite string_app_cons in IH |- *. by rewrite last_char_cons.
Qed.

Lemma endswith_refl s : PyStr.endswith s s = true.
Proof. destruct s; cbn; by rewrite bool_decide_eq_true_2. Qed.

Lemma endswith_app s suffix : PyStr.endswith (s +:+ suffix) suffix = true.
Proof.
  induction s as [|c s IH]; [apply endswith_refl|].
  rewrite string_app_cons. cbn. rewrite IH. apply orb_true_r.
Qed.

(** What ends with a string ends with the last character of it. *)
Lemma endswith_last s c suffix :
  PyStr.endswith s (String c suffix) = true →
  last_char s = last_char (String c suffix).
Proof.
  induction s as [|a s IH]; cbn [PyStr.endswith].
  - rewrite orb_false_r. by intros Heq%bool_decide_eq_true.
  - intros [Heq%bool_decide_eq_true|Hs]%orb_true_iff; [by rewrite Heq|].
    destruct s as [|b s].
    + cbn in Hs. rewrite orb_false_r in Hs. by apply bool_decide_eq_true in Hs.
    + rewrite last_char_cons. by apply IH.
Qed.

Lemma endswith_filler s c n :
  PyStr.endswith (s +:+ filler c (S n)) (String c "") = true.
Proof.
  induction n as [|n IH] in s |- *; [apply endswith_app|].
  rewrite filler_S. specialize (IH (s +:+ String c "")).
  by rewrite string_app_assoc in IH.
Qed.

Lemma rstrip_char_filler c n : PyStr.rstrip_char c (filler c n) = "".
Proof.
  unfold PyStr.rstrip_char. induction n as [|n IH]; [done|].
  rewrite filler_S. cbn. rewrite IH. by rewrite bool_decide_eq_true_2.
Qed.

Lemma rstrip_char_app s c n :
  last_char s ≠ Some c → PyStr.rstrip_char c (s +:+ filler c n) = s.
Proof.
  induction s as [|a s IH]; intros Hlast; [apply rstrip_char_filler|].
  rewrite string_app_cons. unfold PyStr.rstrip_char in *. cbn.
  destruct s as [|b s].
  - change ("" +:+ filler c n) with (filler c n).
    pose proof (rstrip_char_filler c n) as Hfill. unfold PyStr.rstrip_char in Hfill.
    rewrite Hfill. cbn in Hlast. rewrite bool_decide_eq_false_2; [done|congruence].
  - rewrite IH by done. done.
Qed.

Section size_suffix.

Variable int_of_float_times : string → Z → conversion.

(** Every run of [m] (or [M]) at the end of a size means a million, and
    the whole run is cut off: [1m], [1mm], [1MMM] are read alike, and
    what is left may still end in [k]. *)
Theorem parse_size_millions stem suffix n :
  PyStr.lower suffix = filler "m" (S n) →
  last_char (PyStr.lower stem) ≠ Some "m"%char →
  size_suffix (stem +:+ suffix) = (1000000%Z, PyStr.lower stem)
  ∧ parse_size int_of_float_times (stem +:+ suffix)
    = parse_size int_of_float_times (stem +:+ "m").
Proof.
  intros Hsuffix Hstem.
  assert (∀ tail k, PyStr.lower tail = filler "m" (S k) →
            size_suffix (stem +:+ tail) = (1000000%Z, PyStr.lower stem)) as Hcut.
  { intros tail k Htail. unfold size_suffix.
    rewrite lower_app, Htail, endswith_filler, orb_true_r.
    by rewrite rstrip_char_app. }
  split; [by apply (Hcut suffix n)|].
  unfold parse_size. by rewrite (Hcut suffix n), (Hcut "m" 0).
Qed.

Lemma not_endswith s c suffix :
  last_char s ≠ last_char (String c suffix) →
  PyStr.endswith s (String c suffix) = false.
Proof.
  intros Hlast. destruct (PyStr.endswith s (String c suffix)) eqn:Hs; [|done].
  by apply endswith_last in Hs.
Qed.

(** A run of [k] (or [K]) at the end of a size means a thousand, and the
    whole run is cut off; what is left may still end in [m]. *)
Theorem parse_size_thousands stem suffix n :
  PyStr.lower suffix = filler "k" (S n) →
  last_char (PyStr.lower stem) ≠ Some "k"%char →
  size_suffix (stem +:+ suffix) = (1000%Z, PyStr.lower stem)
  ∧ parse_size int_of_float_times (stem +:+ suffix)
    = parse_size int_of_float_times (stem +:+ "k").
Proof.
  intros Hsuffix Hstem.
  assert (∀ tail k, PyStr.lower tail = filler "k" (S k) →
            size_suffix (stem +:+ tail) = (1000%Z, PyStr.lower stem)) as Hcut.
  { intros tail k Htail. unfold size_suffix. rewrite lower_app, Htail.
    assert (last_char (PyStr.lower stem +:+ filler "k" (S k)) = Some "k"%char) as Hlast.
    { rewrite filler_S, last_char_app, <-filler_S. apply last_char_filler. }
    rewrite !not_endswith by (by rewrite Hlast).
    rewrite endswith_filler. cbn [orb]. by rewrite rstrip_char_app. }
  split; [by apply (Hcut suffix n)|].
  unfold parse_size. by rewrite (Hcut suffix n), (Hcut "k" 0).
Qed.


End size_suffix.

Lemma parse_size_millions_witness :
  size_suffix "2.5kMm" = (1000000%Z, "2.5k").
Proof.
  destruct (parse_size_millions (λ _ _, ConversionValueError) "2.5k" "Mm" 1)
    as [Hcut _]; [reflexivity|by vm_compute|exact Hcut].
Defined.

Lemma parse_size_thousands_witness :
  size_suffix "1.5K" = (1000%Z, "1.5").
Proof.
  destruct (parse_size_thousands (λ _ _, ConversionValueError) "1.5" "K" 0)
    as [Hcut _]; [reflexivity|by vm_compute|exact Hcut].
Defined.


(** * The cache of downloaded texts *)

Lemma is_txt_cache_path filename : is_txt (filename +:+ ".txt") = true.
Proof. apply endswith_app. Qed.

Lemma string_app_inv_r s1 s2 t : s1 +:+ t = s2 +:+ t → s1 = s2.
Proof.
  revert s2. induction s1 as [|c s1 IH]; intros [|d s2] Heq; [done|..].
  - apply (f_equal String.length) in Heq.
    rewrite !string_length_app in Heq. cbn in Heq. lia.
  - apply (f_equal String.length) in Heq.
    rewrite !string_length_app in Heq. cbn in Heq. lia.
  - rewrite !string_app_cons in Heq. injection Heq as -> Heq. f_equal. by apply IH.
Qed.

(** No two books of the table share a URL or a cache file name. *)
Theorem GUTENBERG_TEXTS_distinct :
  NoDup (GUTENBERG_TEXTS.*1) ∧ NoDup (GUTENBERG_TEXTS.*2).
Proof. split; apply (bool_decide_unpack _); by vm_compute. Qed.

Lemma GUTENBERG_TEXTS_url url1 url2 filename :
  (url1, filename) ∈ GUTENBERG_TEXTS → (url2, filename) ∈ GUTENBERG_TEXTS →
  url1 = url2.
Proof.
  intros H1 H2.
  assert (Forall (λ p1, Forall (λ p2, p1.2 = p2.2 → p1.1 = p2.1) GUTENBERG_TEXTS)
            GUTENBERG_TEXTS) as Hall.
  { apply (bool_decide_unpack _). by vm_compute. }
  rewrite Forall_forall in Hall. specialize (Hall _ H1).
  rewrite Forall_forall in Hall. by apply (Hall _ H2).
Qed.

Section cache.

Variable response_text : nat → string → option string.
Variable strip_gutenberg : string → string.
Variable read_text : string → string.

Local Abbreviation download := (download_text response_text strip_gutenberg read_text).
Local Abbreviation random_text := (get_random_text response_text strip_gutenberg read_text).
Local Abbreviation holds_books := (cache_holds_books response_text strip_gutenberg).

Local Ltac simpl_world :=
  unfold ensure_cache_dir;
  cbn [cache_dir requested stderr fmap option_fmap option_map mbind option_bind].

(** Once [download_text] has returned a text for a file name, the file
    is in the cache, and every later call for that name answers from
    it: it sends no request, changes nothing and returns what
    [read_text] gives for the file, which holds the text returned by
    the call that fetched it. *)
Theorem download_text_cached url filename w text w1 :
  download_text response_text strip_gutenberg read_text url filename w = (Some text, w1) →
  ∃ written,
    cache_dir w1 ≫= (.!! (filename +:+ ".txt")) = Some written
    ∧ (∀ url', download_text response_text strip_gutenberg read_text url' filename w1
               = (Some (read_text written), w1))
    ∧ (text = written ∨ text = read_text written ∧ w1 = w).
Proof.
  unfold download_text.
  destruct (cache_dir w ≫= (.!! (filename +:+ ".txt"))) as [written|] eqn:Hfile.
  - intros [= <- <-]. exists written. split_and!; [done| |by right].
    intros url'. by rewrite Hfile.
  - destruct (response_text (length (requested w)) url) as [fetched|]; [|done].
    intros [= <- <-]. exists (strip_gutenberg fetched). simpl_world.
    rewrite lookup_insert_eq. split_and!; [done|done|by left].
Qed.

(** [download_text] touches no other file of the cache than the one of
    its file name, prints nothing, sends at most the one request for
    its URL, and leaves the cache as it is when the request fails. *)
Theorem download_text_frame url filename w outcome w1 :
  download_text response_text strip_gutenberg read_text url filename w = (outcome, w1) →
  (∀ name, name ≠ filename +:+ ".txt" →
     cache_dir w1 ≫= (.!! name) = cache_dir w ≫= (.!! name))
  ∧ (outcome = None → cache_dir w1 = cache_dir w)
  ∧ stderr w1 = stderr w
  ∧ (requested w1 = requested w ∨ requested w1 = url :: requested w).
Proof.
  unfold download_text.
  destruct (cache_dir w ≫= (.!! (filename +:+ ".txt"))) as [written|] eqn:Hfile.
  - intros [= <- <-]. split_and!; [done|done|done|by left].
  - destruct (response_text (length (requested w)) url) as [fetched|].
    + intros [= <- <-]. simpl_world. split_and!; [|done|done|by right].
      intros name Hname. rewrite lookup_insert_ne by done.
      by destruct (cache_dir w).
    + intros [= <- <-]. simpl_world. split_and!; [done|done|done|by right].
Qed.

Lemma lookup_clear_cache w name :
  cache_dir (clear_cache w) ≫= (.!! name)
  = if is_txt name then None else cache_dir w ≫= (.!! name).
Proof.
  unfold clear_cache. simpl_world. destruct (cache_dir w) as [files|]; simpl_world.
  - destruct (is_txt name) eqn:Htxt.
    + apply map_lookup_filter_None. right. intros written _ Hno. apply Hno.
      cbn [fst]. by rewrite Htxt.
    + destruct (files !! name) as [written|] eqn:Hname.
      * apply map_lookup_filter_Some. split; [done|]. cbn [fst]. rewrite Htxt.
        by intros ?.
      * apply map_lookup_filter_None. by left.
  - by destruct (is_txt name).
Qed.

Lemma lookup_ensure_cache_dir w name :
  cache_dir (ensure_cache_dir w) ≫= (.!! name) = cache_dir w ≫= (.!! name).
Proof. simpl_world. destruct (cache_dir w); [done|]. apply lookup_empty. Qed.

Lemma cache_dir_ensure_clean_cache print_message w :
  cache_dir (ensure_clean_cache print_message w)
  = cache_dir (ensure_cache_dir (clear_cache w)).
Proof. by destruct print_message. Qed.

Lemma ensure_clean_cache_files print_message w name :
  cache_dir (ensure_clean_cache print_message w) ≫= (.!! name)
  = if is_txt name then None else cache_dir w ≫= (.!! name).
Proof.
  by rewrite cache_dir_ensure_clean_cache, lookup_ensure_cache_dir, lookup_clear_cache.
Qed.

(** After [ensure_clean_cache] the cache directory exists and holds no
    [.txt] file, so that [is_cache_empty] answers yes; the other files
    of the directory are kept. *)
Theorem ensure_clean_cache_empty print_message w :
  is_cache_empty (ensure_clean_cache print_message w) = true
  ∧ is_Some (cache_dir (ensure_clean_cache print_message w))
  ∧ ∀ name,
      cache_dir (ensure_clean_cache print_message w) ≫= (.!! name)
      = if is_txt name then None else cache_dir w ≫= (.!! name).
Proof.
  assert (∀ name,
            cache_dir (ensure_clean_cache print_message w) ≫= (.!! name)
            = if is_txt name then None else cache_dir w ≫= (.!! name)) as Hfiles.
  { apply ensure_clean_cache_files. }
  split_and!; [|by rewrite cache_dir_ensure_clean_cache|done].
  unfold is_cache_empty.
  destruct (cache_dir (ensure_clean_cache print_message w)) as [files|] eqn:Hdir; [|done].
  apply bool_decide_eq_true, map_empty. intros name.
  apply map_lookup_filter_None. specialize (Hfiles name).
  simpl_world. cbn [mbind option_bind] in Hfiles.
  destruct (is_txt name) eqn:Htxt; [by left|].
  right. intros written _. cbn [fst]. rewrite Htxt. by intros ?.
Qed.

Lemma download_text_file url filename w text w1 :
  download url filename w = (Some text, w1) →
  ∃ written, cache_dir w1 ≫= (.!! (filename +:+ ".txt")) = Some written.
Proof.
  unfold download_text.
  destruct (cache_dir w ≫= (.!! (filename +:+ ".txt"))) as [written|] eqn:Hfile.
  - intros [= <- <-]. by exists written.
  - destruct (response_text (length (requested w)) url) as [fetched|]; [|done].
    intros [= <- <-]. exists (strip_gutenberg fetched). simpl_world.
    by rewrite lookup_insert_eq.
Qed.

(** After [get_random_text] has returned a text, the cache is not empty
    any more: it holds the file of the chosen book. *)
Theorem get_random_text_fills_cache choice w text w1 :
  get_random_text response_text strip_gutenberg read_text choice w = (Some text, w1) →
  is_cache_empty w1 = false
  ∧ is_Some (cache_dir w1 ≫= (.!! (choice.2 +:+ ".txt"))).
Proof.
  unfold get_random_text. intros [written Hfile]%download_text_file.
  split; [|by exists written]. unfold is_cache_empty.
  destruct (cache_dir w1) as [files|]; [|done]. cbn [mbind option_bind] in Hfile.
  apply bool_decide_eq_false. intros Hempty.
  apply (map_filter_empty_not_lookup _ _ (choice.2 +:+ ".txt") written) in Hempty;
    [done|]. cbn [fst]. by rewrite is_txt_cache_path.
Qed.

Lemma holds_books_ext w w' :
  cache_dir w = cache_dir w' → holds_books w → holds_books w'.
Proof. unfold cache_holds_books. by intros ->. Qed.

Lemma holds_books_clean print_message w :
  holds_books w → holds_books (ensure_clean_cache print_message w).
Proof.
  intros _ files name written Hdir Hname Htxt.
  pose proof (ensure_clean_cache_files print_message w name) as Hfiles.
  rewrite Hdir in Hfiles. cbn [mbind option_bind] in Hfiles.
  rewrite Hname in Hfiles. by destruct (is_txt name).
Qed.

Lemma holds_books_download url filename w outcome w1 :
  (url, filename) ∈ GUTENBERG_TEXTS →
  holds_books w →
  download url filename w = (outcome, w1) →
  holds_books w1.
Proof.
  intros Hbook Hw. unfold download_text.
  destruct (cache_dir w ≫= (.!! (filename +:+ ".txt"))) as [written|] eqn:Hfile.
  { by intros [= <- <-]. }
  destruct (response_text (length (requested w)) url) as [fetched|] eqn:Hfetched.
  - intros [= <- <-] files name written. simpl_world. intros [= <-] Hname Htxt.
    destruct (decide (name = filename +:+ ".txt")) as [->|Hother].
    + rewrite lookup_insert_eq in Hname. simplify_eq. eauto 10.
    + rewrite lookup_insert_ne in Hname by done.
      destruct (cache_dir w) as [files|] eqn:Hdir; cbn [from_option] in Hname.
      * by eapply Hw.
      * by rewrite lookup_empty in Hname.
  - intros [= <- <-]. by apply (holds_books_ext w).
Qed.

(** While the cache holds only books of the table, [get_random_text]
    keeps it so, and the text it returns is the text of the chosen book
    and of no other: the cleaned response to some request for the URL of
    the choice, as fetched or as read back from its file. *)
Theorem get_random_text_book choice w text w1 :
  choice ∈ GUTENBERG_TEXTS →
  cache_holds_books response_text strip_gutenberg w →
  get_random_text response_text strip_gutenberg read_text choice w = (Some text, w1) →
  cache_holds_books response_text strip_gutenberg w1
  ∧ ∃ n fetched,
      response_text n choice.1 = Some fetched
      ∧ (text = strip_gutenberg fetched ∨ text = read_text (strip_gutenberg fetched)).
Proof.
  destruct choice as [url filename]. intros Hbook Hw. unfold get_random_text.
  cbn [fst snd].
  set (w0 := if is_cache_empty w then ensure_clean_cache false w else w).
  assert (holds_books w0) as Hw0.
  { unfold w0. destruct (is_cache_empty w); [by apply holds_books_clean|done]. }
  clearbody w0. intros Hdownload. split; [by eapply holds_books_download|].
  unfold download_text in Hdownload.
  destruct (cache_dir w0 ≫= (.!! (filename +:+ ".txt"))) as [written|] eqn:Hfile.
  - injection Hdownload as <- <-.
    destruct (cache_dir w0) as [files|] eqn:Hdir; [|done].
    cbn [mbind option_bind] in Hfile.
    destruct (Hw0 files _ written Hdir Hfile) as (url' & f' & n & fetched & Hin & Hname & Hresp & ->).
    { by rewrite is_txt_cache_path. }
    apply string_app_inv_r in Hname as <-.
    rewrite (GUTENBERG_TEXTS_url url url' filename) by done. eauto.
  - destruct (response_text (length (requested w0)) url) as [fetched|] eqn:Hresp; [|done].
    injection Hdownload as <- <-. eauto.
Qed.

End cache.

Lemma download_text_cached_witness :
  ∃ written,
    Some ({["emma.txt" := "Emma Woodhouse"]} : gmap string string)
      ≫= (.!! ("emma" +:+ ".txt")) = Some written
    ∧ (∀ url',
         download_text (λ _ _, Some "Emma Woodhouse") id id url' "emma"
           (World (Some {["emma.txt" := "Emma Woodhouse"]}) ["pg158"] [])
         = (Some (id written),
            World (Some {["emma.txt" := "Emma Woodhouse"]}) ["pg158"] []))
    ∧ ("Emma Woodhouse" = written
       ∨ "Emma Woodhouse" = id written
         ∧ World (Some {["emma.txt" := "Emma Woodhouse"]}) ["pg158"] []
           = World None [] []).
Proof.
  apply (download_text_cached (λ _ _, Some "Emma Woodhouse") id id
           "pg158" "emma" (World None [] []) "Emma Woodhouse"
           (World (Some {["emma.txt" := "Emma Woodhouse"]}) ["pg158"] [])).
  reflexivity.
Defined.

Lemma download_text_frame_witness :
  (∀ name, name ≠ "emma" +:+ ".txt" →
     cache_dir (World None ["pg158"] []) ≫= (.!! name)
     = cache_dir (World None [] []) ≫= (.!! name))
  ∧ (@None string = None
     → cache_dir (World None ["pg158"] []) = cache_dir (World None [] []))
  ∧ stderr (World None ["pg158"] []) = stderr (World None [] [])
  ∧ (requested (World None ["pg158"] []) = requested (World None [] [])
     ∨ requested (World None ["pg158"] []) = "pg158" :: requested (World None [] [])).
Proof.
  apply (download_text_frame (λ _ _, None) id id "pg158" "emma" (World None [] [])
           None (World None ["pg158"] [])).
  reflexivity.
Defined.

Lemma get_random_text_fills_cache_witness :
  is_cache_empty (World (Some {["emma.txt" := "Emma Woodhouse"]}) ["pg158"] []) = false
  ∧ is_Some (cache_dir (World (Some {["emma.txt" := "Emma Woodhouse"]}) ["pg158"] [])
             ≫= (.!! (("pg158", "emma").2 +:+ ".txt"))).
Proof.
  apply (get_random_text_fills_cache (λ _ _, Some "Emma Woodhouse") id id
           ("pg158", "emma") (World None [] []) "Emma Woodhouse"
           (World (Some {["emma.txt" := "Emma Woodhouse"]}) ["pg158"] [])).
  reflexivity.
Defined.

Lemma get_random_text_book_witness :
  cache_holds_books (λ _ _, Some "Emma Woodhouse") id
    (World (Some {["emma.txt" := "Emma Woodhouse"]})
       ["https://www.gutenberg.org/cache/epub/158/pg158.txt"] [])
  ∧ ∃ n fetched,
      (λ (_ : nat) (_ : string), Some "Emma Woodhouse") n
        ("https://www.gutenberg.org/cache/epub/158/pg158.txt", "emma").1
      = Some fetched
      ∧ ("Emma Woodhouse" = id fetched ∨ "Emma Woodhouse" = id (id fetched)).
Proof.
  apply (get_random_text_book (λ _ _, Some "Emma Woodhouse") id id
           ("https://www.gutenberg.org/cache/epub/158/pg158.txt", "emma")
           (World None [] []) "Emma Woodhouse"
           (World (Some {["emma.txt" := "Emma Woodhouse"]})
              ["https://www.gutenberg.org/cache/epub/158/pg158.txt"] [])).
  - apply (bool_decide_unpack _). by vm_compute.
  - by intros files name written [=].
  - reflexivity.
Defined.
